(** * Octonions by Cayley-Dickson doubling: the [octo] package

    A shallow embedding of [cayley.go] and [klein.go].  A [Cayley] (or
    [Klein]) value is an array of two pointers to [quat.Hamilton] values,
    and a [quat.Hamilton] is an array of two [complex128].  Pointers are
    modelled as options ([None] is [nil]); a method that reads through a
    nil pointer panics, so every method returns a [result].

    The [quat] package is an external collaborator: its methods are the
    fields of the classes [QuatArith] and [QuatSpecial].  The [float64]
    arithmetic is the class [Float64], with two instances: IEEE binary64
    (the kernel's primitive floats) and the real numbers. *)

From Stdlib Require Import ZArith List String Bool Lia Lra Reals Floats.
From stdpp Require Import base list strings.

Set Default Proof Using "Type".
Local Open Scope string_scope.

(** ** The Go run time: panics *)

Inductive panic_value : Type :=
| NilDeref                      (* invalid memory address or nil pointer dereference *)
| IndexOutOfRange               (* index out of range *)
| PanicMsg (msg : string).      (* panic("...") *)

Inductive result (A : Type) : Type :=
| Ok (a : A)
| Panic (e : panic_value).

Arguments Ok {A} a.
Arguments Panic {A} e.

#[export] Instance result_bind : MBind result := fun A B k m =>
  match m with
  | Ok a => k a
  | Panic e => Panic e
  end.

Definition panics {A : Type} (m : result A) : Prop :=
  exists e, m = Panic e.

(** Reading through a pointer. *)
Definition deref {A : Type} (p : option A) : result A :=
  match p with
  | Some a => Ok a
  | None => Panic NilDeref
  end.

(** [s[i]] and [s[i] = x] on an array or slice. *)
Definition index {A : Type} (s : list A) (i : nat) : result A :=
  match s !! i with
  | Some a => Ok a
  | None => Panic IndexOutOfRange
  end.

Definition store {A : Type} (s : list A) (i : nat) (x : A) : result (list A) :=
  if (i <? length s)%nat then Ok (<[i:=x]> s) else Panic IndexOutOfRange.

(** ** float64 *)

(** The arithmetic of [float64] that the two packages use. *)
Class Float64 : Type := {
  F : Type;
  f_zero : F;
  f_one : F;
  f_add : F -> F -> F;
  f_sub : F -> F -> F;
  f_mul : F -> F -> F;
  f_div : F -> F -> F;
  f_neg : F -> F;
  f_eqb : F -> F -> bool
}.

(** The functions of package [math] on special values. *)
Class Float64Math (fl : Float64) : Type := {
  Signbit : F -> bool;
  IsInf : F -> Z -> bool;
  IsNaN : F -> bool;
  Inf : Z -> F;
  NaN : F
}.

(** ** quat.Hamilton *)

Section Layout.
Context {fl : Float64}.

Record complex128 : Type := Complex { real : F; imag : F }.

(** [type Hamilton [2]complex128] *)
Record Hamilton : Type := MkHamilton { h0 : complex128; h1 : complex128 }.

(** The composite literal [quat.Hamilton{0, 0}]. *)
Definition Hamilton_0_0 : Hamilton :=
  MkHamilton (Complex f_zero f_zero) (Complex f_zero f_zero).

(** The four coordinates, in the order [String] reads them. *)
Definition coords (h : Hamilton) : list F :=
  [real (h0 h); imag (h0 h); real (h1 h); imag (h1 h)].
End Layout.

(** The methods of [quat.Hamilton] that [octo] calls, as total functions
    on values; the pointer arguments are read by [call1] and [call2]. *)
Class QuatArith (fl : Float64) : Type := {
  Hamilton_Equals : Hamilton -> Hamilton -> bool;
  Hamilton_Copy : Hamilton -> Hamilton;
  NewHamilton : F -> F -> F -> F -> Hamilton;
  Hamilton_Mul : Hamilton -> Hamilton -> Hamilton;
  Hamilton_Dil : Hamilton -> F -> Hamilton;
  Hamilton_Neg : Hamilton -> Hamilton;
  Hamilton_Conj : Hamilton -> Hamilton;
  Hamilton_Add : Hamilton -> Hamilton -> Hamilton;
  Hamilton_Sub : Hamilton -> Hamilton -> Hamilton;
  Hamilton_Quad : Hamilton -> F
}.

Class QuatSpecial (fl : Float64) : Type := {
  Hamilton_IsInf : Hamilton -> bool;
  HamiltonInf : Z -> Z -> Z -> Z -> Hamilton;
  Hamilton_IsNaN : Hamilton -> bool;
  HamiltonNaN : Hamilton
}.

(** A method of [quat] applied to pointers: each pointer is read, and a
    nil one panics. *)
Definition call1 {A B : Type} (f : A -> B) (x : option A) : result B :=
  a ← deref x; Ok (f a).

Definition call2 {A B C : Type} (f : A -> B -> C) (x : option A) (y : option B)
  : result C :=
  a ← deref x; b ← deref y; Ok (f a b).

(** [new(quat.Hamilton).M(...)]: the result is a pointer to a fresh value. *)
Definition fresh {A : Type} (m : result A) : result (option A) :=
  a ← m; Ok (Some a).

(** ** cayley.go *)

Section Cayley.
Context {fl : Float64} {Q : QuatArith fl}.

(** [type Cayley [2]*quat.Hamilton] *)
Record Cayley : Type := MkCayley { c0 : option Hamilton; c1 : option Hamilton }.

(** [new(Cayley)]: both pointers are nil. *)
Definition new_Cayley : Cayley := MkCayley None None.

(** A value with both pointers set. *)
Definition cayley (p q : Hamilton) : Cayley := MkCayley (Some p) (Some q).

Definition Cayley_Equals (z y : Cayley) : result bool :=
  e0 ← call2 Hamilton_Equals (c0 z) (c0 y);
  if negb e0 then Ok false
  else
    e1 ← call2 Hamilton_Equals (c1 z) (c1 y);
    if negb e1 then Ok false else Ok true.

Definition Cayley_Copy (y : Cayley) : result Cayley :=
  z0 ← fresh (call1 Hamilton_Copy (c0 y));
  z1 ← fresh (call1 Hamilton_Copy (c1 y));
  Ok (MkCayley z0 z1).

Definition NewCayley (a b c d e f g h : F) : Cayley :=
  MkCayley (Some (NewHamilton a b c d)) (Some (NewHamilton e f g h)).

Definition Cayley_ScalR (y : Cayley) (a : option Hamilton) : result Cayley :=
  z0 ← fresh (call2 Hamilton_Mul (c0 y) a);
  z1 ← fresh (call2 Hamilton_Mul (c1 y) a);
  Ok (MkCayley z0 z1).

Definition Cayley_ScalL (a : option Hamilton) (y : Cayley) : result Cayley :=
  z0 ← fresh (call2 Hamilton_Mul a (c0 y));
  z1 ← fresh (call2 Hamilton_Mul a (c1 y));
  Ok (MkCayley z0 z1).

Definition Cayley_Dil (y : Cayley) (a : F) : result Cayley :=
  z0 ← fresh (call1 (fun h => Hamilton_Dil h a) (c0 y));
  z1 ← fresh (call1 (fun h => Hamilton_Dil h a) (c1 y));
  Ok (MkCayley z0 z1).

Definition Cayley_Neg (y : Cayley) : result Cayley :=
  Cayley_Dil y (f_neg f_one).

Definition Cayley_Conj (y : Cayley) : result Cayley :=
  z0 ← fresh (call1 Hamilton_Conj (c0 y));
  z1 ← fresh (call1 Hamilton_Neg (c1 y));
  Ok (MkCayley z0 z1).

Definition Cayley_Add (x y : Cayley) : result Cayley :=
  z0 ← fresh (call2 Hamilton_Add (c0 x) (c0 y));
  z1 ← fresh (call2 Hamilton_Add (c1 x) (c1 y));
  Ok (MkCayley z0 z1).

Definition Cayley_Sub (x y : Cayley) : result Cayley :=
  z0 ← fresh (call2 Hamilton_Sub (c0 x) (c0 y));
  z1 ← fresh (call2 Hamilton_Sub (c1 x) (c1 y));
  Ok (MkCayley z0 z1).

(** [p] and [q] are copies of the operands.  The last call,
    [q[0].Conj(q[0])], overwrites [q[0]] with its conjugate and returns
    it; [q] is local and is not read again. *)
Definition Cayley_Mul (x y : Cayley) : result Cayley :=
  p ← Cayley_Copy x;
  q ← Cayley_Copy y;
  t1 ← fresh (call2 Hamilton_Mul (c0 p) (c0 q));
  cq1 ← fresh (call1 Hamilton_Conj (c1 q));
  t2 ← fresh (call2 Hamilton_Mul cq1 (c1 p));
  z0 ← fresh (call2 Hamilton_Sub t1 t2);
  t3 ← fresh (call2 Hamilton_Mul (c1 q) (c0 p));
  cq0 ← fresh (call1 Hamilton_Conj (c0 q));
  let q' := MkCayley cq0 (c1 q) in
  t4 ← fresh (call2 Hamilton_Mul (c1 p) (c0 q'));
  z1 ← fresh (call2 Hamilton_Add t3 t4);
  Ok (MkCayley z0 z1).

Definition Cayley_Commutator (x y : Cayley) : result Cayley :=
  xy ← Cayley_Mul x y;
  yx ← Cayley_Mul y x;
  Cayley_Sub xy yx.

Definition Cayley_Associator (w x y : Cayley) : result Cayley :=
  wx ← Cayley_Mul w x;
  wx_y ← Cayley_Mul wx y;
  xy ← Cayley_Mul x y;
  w_xy ← Cayley_Mul w xy;
  Cayley_Sub wx_y w_xy.

Definition Cayley_Quad (z : Cayley) : result F :=
  a ← call1 Hamilton_Quad (c0 z);
  b ← call1 Hamilton_Quad (c1 z);
  Ok (f_add a b).

(** [&Cayley{&quat.Hamilton{0, 0}, &quat.Hamilton{0, 0}}] *)
Definition Cayley_zero : Cayley := cayley Hamilton_0_0 Hamilton_0_0.

Definition Cayley_Inv (y : Cayley) : result Cayley :=
  isz ← Cayley_Equals y Cayley_zero;
  if isz : bool then Panic (PanicMsg "inverse of zero")
  else
    c ← Cayley_Conj y;
    n ← Cayley_Quad y;
    Cayley_Dil c (f_div f_one n).

Definition Cayley_Quo (x y : Cayley) : result Cayley :=
  isz ← Cayley_Equals y Cayley_zero;
  if isz : bool then Panic (PanicMsg "denominator is zero")
  else
    c ← Cayley_Conj y;
    m ← Cayley_Mul x c;
    n ← Cayley_Quad y;
    Cayley_Dil m (f_div f_one n).

(** The assignments of the body are comments: [z] is returned as
    [new(Cayley)] made it. *)
Definition RectCayley (r theta1 theta2 theta3 theta4 theta5 theta6 theta7 : F) : Cayley :=
  let z := new_Cayley in
  z.
End Cayley.

Section CayleySpecial.
Context {fl : Float64} {S : QuatSpecial fl}.

Definition Cayley_IsInf (z : Cayley) : result bool :=
  i0 ← call1 Hamilton_IsInf (c0 z);
  if i0 : bool then Ok true
  else
    i1 ← call1 Hamilton_IsInf (c1 z);
    if i1 : bool then Ok true else Ok false.

Definition CayleyInf (a b c d e f g h : Z) : Cayley :=
  MkCayley (Some (HamiltonInf a b c d)) (Some (HamiltonInf e f g h)).

Definition Cayley_IsNaN (z : Cayley) : result bool :=
  i0 ← call1 Hamilton_IsInf (c0 z);
  if i0 : bool then Ok false
  else
    i1 ← call1 Hamilton_IsInf (c1 z);
    if i1 : bool then Ok false
    else
      n0 ← call1 Hamilton_IsNaN (c0 z);
      if n0 : bool then Ok true
      else
        n1 ← call1 Hamilton_IsNaN (c1 z);
        if n1 : bool then Ok true else Ok false.

Definition CayleyNaN : Cayley :=
  MkCayley (Some HamiltonNaN) (Some HamiltonNaN).
End CayleySpecial.

(** ** String, shared by the two types up to the table of symbols *)

Section String.
Context {fl : Float64} {M : Float64Math fl}.

(** [fmt.Sprintf("%g", x)], of package [fmt]. *)
Variable Sprintf_g : F -> string.

Definition symbCayley : list string := [EmptyString; "i"; "j"; "k"; "m"; "n"; "p"; "q"].
Definition symbKlein : list string := [EmptyString; "i"; "j"; "k"; "s"; "t"; "u"; "v"].

(** The [switch] of the loop body: what is stored in [a[j]]. *)
Definition coefficient (x : F) : string :=
  if Signbit x then Sprintf_g x
  else if IsInf x 1 then "+Inf"
  else "+" ++ Sprintf_g x.

(** [for j := 2; j < 16; j = j + 2 { ...; i++ }].  [j] grows by two up
    to sixteen, so sixteen units of fuel are never used up. *)
Fixpoint String_loop (symb : list string) (v : list F) (fuel i j : nat)
    (a : list string) : result (list string) :=
  match fuel with
  | O => Ok a
  | Datatypes.S fuel' =>
      if (j <? 16)%nat then
        vi ← index v i;
        a ← store a j (coefficient vi);
        s ← index symb i;
        a ← store a (j + 1) s;
        String_loop symb v fuel' (i + 1) (j + 2) a
      else Ok a
  end.

Definition String_of (symb : list string) (z0 z1 : option Hamilton)
  : result string :=
  q0 ← deref z0;
  q1 ← deref z1;
  let v := (coords q0 ++ coords q1)%list in
  let a := replicate 17 EmptyString in
  a ← store a 0 "(";
  v0 ← index v 0;
  a ← store a 1 (Sprintf_g v0);
  a ← String_loop symb v 16 1 2 a;
  a ← store a 16 ")";
  Ok (String.concat EmptyString a).

Definition Cayley_String (z : Cayley) : result string :=
  String_of symbCayley (c0 z) (c1 z).
End String.

(** ** klein.go *)

Section Klein.
Context {fl : Float64} {Q : QuatArith fl}.

(** [type Klein [2]*quat.Hamilton] *)
Record Klein : Type := MkKlein { k0 : option Hamilton; k1 : option Hamilton }.

Definition klein (p q : Hamilton) : Klein := MkKlein (Some p) (Some q).

Definition Klein_Equals (z y : Klein) : result bool :=
  e0 ← call2 Hamilton_Equals (k0 z) (k0 y);
  if negb e0 then Ok false
  else
    e1 ← call2 Hamilton_Equals (k1 z) (k1 y);
    if negb e1 then Ok false else Ok true.

Definition Klein_Copy (y : Klein) : result Klein :=
  z0 ← fresh (call1 Hamilton_Copy (k0 y));
  z1 ← fresh (call1 Hamilton_Copy (k1 y));
  Ok (MkKlein z0 z1).

Definition NewKlein (a b c d e f g h : F) : Klein :=
  MkKlein (Some (NewHamilton a b c d)) (Some (NewHamilton e f g h)).

Definition Klein_ScalR (y : Klein) (a : option Hamilton) : result Klein :=
  z0 ← fresh (call2 Hamilton_Mul (k0 y) a);
  z1 ← fresh (call2 Hamilton_Mul (k1 y) a);
  Ok (MkKlein z0 z1).

Definition Klein_ScalL (a : option Hamilton) (y : Klein) : result Klein :=
  z0 ← fresh (call2 Hamilton_Mul a (k0 y));
  z1 ← fresh (call2 Hamilton_Mul a (k1 y));
  Ok (MkKlein z0 z1).

Definition Klein_Dil (y : Klein) (a : F) : result Klein :=
  z0 ← fresh (call1 (fun h => Hamilton_Dil h a) (k0 y));
  z1 ← fresh (call1 (fun h => Hamilton_Dil h a) (k1 y));
  Ok (MkKlein z0 z1).

Definition Klein_Neg (y : Klein) : result Klein :=
  Klein_Dil y (f_neg f_one).

Definition Klein_Conj (y : Klein) : result Klein :=
  z0 ← fresh (call1 Hamilton_Conj (k0 y));
  z1 ← fresh (call1 Hamilton_Neg (k1 y));
  Ok (MkKlein z0 z1).

Definition Klein_Add (x y : Klein) : result Klein :=
  z0 ← fresh (call2 Hamilton_Add (k0 x) (k0 y));
  z1 ← fresh (call2 Hamilton_Add (k1 x) (k1 y));
  Ok (MkKlein z0 z1).

Definition Klein_Sub (x y : Klein) : result Klein :=
  z0 ← fresh (call2 Hamilton_Sub (k0 x) (k0 y));
  z1 ← fresh (call2 Hamilton_Sub (k1 x) (k1 y));
  Ok (MkKlein z0 z1).

(** As [Cayley_Mul], with [Add] for [Sub] in the first component. *)
Definition Klein_Mul (x y : Klein) : result Klein :=
  p ← Klein_Copy x;
  q ← Klein_Copy y;
  t1 ← fresh (call2 Hamilton_Mul (k0 p) (k0 q));
  cq1 ← fresh (call1 Hamilton_Conj (k1 q));
  t2 ← fresh (call2 Hamilton_Mul cq1 (k1 p));
  z0 ← fresh (call2 Hamilton_Add t1 t2);
  t3 ← fresh (call2 Hamilton_Mul (k1 q) (k0 p));
  cq0 ← fresh (call1 Hamilton_Conj (k0 q));
  let q' := MkKlein cq0 (k1 q) in
  t4 ← fresh (call2 Hamilton_Mul (k1 p) (k0 q'));
  z1 ← fresh (call2 Hamilton_Add t3 t4);
  Ok (MkKlein z0 z1).

Definition Klein_Commutator (x y : Klein) : result Klein :=
  xy ← Klein_Mul x y;
  yx ← Klein_Mul y x;
  Klein_Sub xy yx.

Definition Klein_Associator (w x y : Klein) : result Klein :=
  wx ← Klein_Mul w x;
  wx_y ← Klein_Mul wx y;
  xy ← Klein_Mul x y;
  w_xy ← Klein_Mul w xy;
  Klein_Sub wx_y w_xy.

Definition Klein_Quad (z : Klein) : result F :=
  a ← call1 Hamilton_Quad (k0 z);
  b ← call1 Hamilton_Quad (k1 z);
  Ok (f_sub a b).

Definition Klein_zero : Klein := klein Hamilton_0_0 Hamilton_0_0.

(** Modelled from the spec: [klein.go] has no [Inv].  The spec's
    Inverse(y) is Conjugate(y) dilated by 1/Quadrance(y), and fails
    with "inverse of zero" when y equals the literal additive identity;
    the steps are those of [Cayley_Inv]. *)
Definition Klein_Inv (y : Klein) : result Klein :=
  isz ← Klein_Equals y Klein_zero;
  if isz : bool then Panic (PanicMsg "inverse of zero")
  else
    c ← Klein_Conj y;
    n ← Klein_Quad y;
    Klein_Dil c (f_div f_one n).

(** Modelled from the spec: [klein.go] has no [Quo].  The spec's
    Quotient(x, y) is Multiply(x, Conjugate(y)) dilated by
    1/Quadrance(y), with the same guard as Inverse; the steps are those
    of [Cayley_Quo]. *)
Definition Klein_Quo (x y : Klein) : result Klein :=
  isz ← Klein_Equals y Klein_zero;
  if isz : bool then Panic (PanicMsg "denominator is zero")
  else
    c ← Klein_Conj y;
    m ← Klein_Mul x c;
    n ← Klein_Quad y;
    Klein_Dil m (f_div f_one n).
End Klein.

Section KleinSpecial.
Context {fl : Float64} {S : QuatSpecial fl}.

Definition Klein_IsInf (z : Klein) : result bool :=
  i0 ← call1 Hamilton_IsInf (k0 z);
  if i0 : bool then Ok true
  else
    i1 ← call1 Hamilton_IsInf (k1 z);
    if i1 : bool then Ok true else Ok false.

Definition KleinInf (a b c d e f g h : Z) : Klein :=
  MkKlein (Some (HamiltonInf a b c d)) (Some (HamiltonInf e f g h)).

Definition Klein_IsNaN (z : Klein) : result bool :=
  i0 ← call1 Hamilton_IsInf (k0 z);
  if i0 : bool then Ok false
  else
    i1 ← call1 Hamilton_IsInf (k1 z);
    if i1 : bool then Ok false
    else
      n0 ← call1 Hamilton_IsNaN (k0 z);
      if n0 : bool then Ok true
      else
        n1 ← call1 Hamilton_IsNaN (k1 z);
        if n1 : bool then Ok true else Ok false.

Definition KleinNaN : Klein :=
  MkKlein (Some HamiltonNaN) (Some HamiltonNaN).
End KleinSpecial.

Definition Klein_String {fl : Float64} {M : Float64Math fl}
    (Sprintf_g : F -> string) (z : Klein) : result string :=
  String_of Sprintf_g symbKlein (k0 z) (k1 z).

(** ** The quaternion collaborator *)

Section Quat.
Context {fl : Float64}.

Definition c_eqb (x y : complex128) : bool :=
  f_eqb (real x) (real y) && f_eqb (imag x) (imag y).
Definition c_add (x y : complex128) : complex128 :=
  Complex (f_add (real x) (real y)) (f_add (imag x) (imag y)).
Definition c_sub (x y : complex128) : complex128 :=
  Complex (f_sub (real x) (real y)) (f_sub (imag x) (imag y)).
Definition c_neg (x : complex128) : complex128 :=
  Complex (f_neg (real x)) (f_neg (imag x)).
Definition c_conj (x : complex128) : complex128 :=
  Complex (real x) (f_neg (imag x)).
Definition c_mul (x y : complex128) : complex128 :=
  Complex (f_sub (f_mul (real x) (real y)) (f_mul (imag x) (imag y)))
          (f_add (f_mul (real x) (imag y)) (f_mul (imag x) (real y))).
Definition c_scale (x : complex128) (a : F) : complex128 :=
  Complex (f_mul (real x) a) (f_mul (imag x) a).
Definition c_quad (x : complex128) : F :=
  f_add (f_mul (real x) (real x)) (f_mul (imag x) (imag x)).

(** Modelled from the spec: [quat] is not part of this repository.
    Equality is exact coordinate-wise equality of the reals, with no
    tolerance. *)
Definition quat_Equals (z y : Hamilton) : bool :=
  c_eqb (h0 z) (h0 y) && c_eqb (h1 z) (h1 y).

(** Modelled from the spec: copy; a value is its own copy. *)
Definition quat_Copy (y : Hamilton) : Hamilton := y.

(** Modelled from the spec: construction from 4 reals, two per
    [complex128] in coordinate order. *)
Definition quat_New (a b c d : F) : Hamilton :=
  MkHamilton (Complex a b) (Complex c d).

(** Modelled from the spec: the quaternion product, as the doubling of
    the complex numbers with the rule the octonions use one level up:
    (p0, p1)(q0, q1) = (p0 q0 - conj(q1) p1, q1 p0 + p1 conj(q0)). *)
Definition quat_Mul (x y : Hamilton) : Hamilton :=
  MkHamilton
    (c_sub (c_mul (h0 x) (h0 y)) (c_mul (c_conj (h1 y)) (h1 x)))
    (c_add (c_mul (h1 y) (h0 x)) (c_mul (h1 x) (c_conj (h0 y)))).

(** Modelled from the spec: dilate-by-real, every coordinate times
    [a]. *)
Definition quat_Dil (y : Hamilton) (a : F) : Hamilton :=
  MkHamilton (c_scale (h0 y) a) (c_scale (h1 y) a).

(** Modelled from the spec: negate, every coordinate. *)
Definition quat_Neg (y : Hamilton) : Hamilton :=
  MkHamilton (c_neg (h0 y)) (c_neg (h1 y)).

(** Modelled from the spec: conjugate, the three imaginary coordinates
    negated. *)
Definition quat_Conj (y : Hamilton) : Hamilton :=
  MkHamilton (c_conj (h0 y)) (c_neg (h1 y)).

(** Modelled from the spec: add, coordinate-wise. *)
Definition quat_Add (x y : Hamilton) : Hamilton :=
  MkHamilton (c_add (h0 x) (h0 y)) (c_add (h1 x) (h1 y)).

(** Modelled from the spec: sub, coordinate-wise. *)
Definition quat_Sub (x y : Hamilton) : Hamilton :=
  MkHamilton (c_sub (h0 x) (h0 y)) (c_sub (h1 x) (h1 y)).

(** Modelled from the spec: quadrance, the sum of the squares of the
    four coordinates. *)
Definition quat_Quad (z : Hamilton) : F :=
  f_add (c_quad (h0 z)) (c_quad (h1 z)).

Definition quat : QuatArith fl := {|
  Hamilton_Equals := quat_Equals;
  Hamilton_Copy := quat_Copy;
  NewHamilton := quat_New;
  Hamilton_Mul := quat_Mul;
  Hamilton_Dil := quat_Dil;
  Hamilton_Neg := quat_Neg;
  Hamilton_Conj := quat_Conj;
  Hamilton_Add := quat_Add;
  Hamilton_Sub := quat_Sub;
  Hamilton_Quad := quat_Quad
|}.

Context {M : Float64Math fl}.

(** Modelled from the spec: the isInf predicate of [quat]; some
    coordinate is an infinity of either sign. *)
Definition quat_IsInf (z : Hamilton) : bool :=
  existsb (fun x => IsInf x 0) (coords z).

(** Modelled from the spec: the infinity constructor of [quat]; each
    coordinate is the infinity of the sign given for it. *)
Definition quat_Inf (a b c d : Z) : Hamilton :=
  MkHamilton (Complex (Inf a) (Inf b)) (Complex (Inf c) (Inf d)).

(** Modelled from the spec: the isNaN predicate of [quat]; no coordinate
    is infinite and some coordinate is NaN. *)
Definition quat_IsNaN (z : Hamilton) : bool :=
  negb (quat_IsInf z) && existsb IsNaN (coords z).

(** Modelled from the spec: the NaN constructor of [quat]. *)
Definition quat_NaN : Hamilton :=
  MkHamilton (Complex NaN NaN) (Complex NaN NaN).

Definition quat_special : QuatSpecial fl := {|
  Hamilton_IsInf := quat_IsInf;
  HamiltonInf := quat_Inf;
  Hamilton_IsNaN := quat_IsNaN;
  HamiltonNaN := quat_NaN
|}.
End Quat.

(** ** The two readings of float64 *)

(** IEEE 754 binary64. *)
Definition binary64 : Float64 := {|
  F := float;
  f_zero := 0%float;
  f_one := 1%float;
  f_add := PrimFloat.add;
  f_sub := PrimFloat.sub;
  f_mul := PrimFloat.mul;
  f_div := PrimFloat.div;
  f_neg := PrimFloat.opp;
  f_eqb := PrimFloat.eqb
|}.

(** [math.Signbit], [math.IsInf], [math.IsNaN], [math.Inf] and
    [math.NaN].  The primitive floats have one NaN, and it has no sign. *)
Definition binary64_math : Float64Math binary64 :=
  Build_Float64Math binary64
    (* Signbit *) PrimFloat.get_sign
    (* IsInf *)
    (fun (f : float) (sign : Z) =>
       ((0 <=? sign)%Z && PrimFloat.eqb f infinity)
       || ((sign <=? 0)%Z && PrimFloat.eqb f neg_infinity))
    (* IsNaN *) PrimFloat.is_nan
    (* Inf *) (fun sign : Z => if (0 <=? sign)%Z then infinity else neg_infinity)
    (* NaN *) nan.

(** The real numbers: float64 without rounding and without special
    values. *)
Definition reals : Float64 := {|
  F := R;
  f_zero := 0%R;
  f_one := 1%R;
  f_add := Rplus;
  f_sub := Rminus;
  f_mul := Rmult;
  f_div := Rdiv;
  f_neg := Ropp;
  f_eqb := fun x y => if Req_dec_T x y then true else false
|}.

(** What the theorems ask of any implementation of [quat]: a copy has
    the value copied, and conjugation and negation undo themselves. *)
Class QuatContract {fl : Float64} (Q : QuatArith fl) : Prop := {
  Copy_value : forall y, Hamilton_Copy y = y;
  Conj_Conj : forall y, Hamilton_Conj (Hamilton_Conj y) = y;
  Neg_Neg : forall y, Hamilton_Neg (Hamilton_Neg y) = y
}.

(** The eight coordinates of a value with both pointers set. *)
Definition coords8 {fl : Float64} (p q : Hamilton) : list F :=
  (coords p ++ coords q)%list.

(** Every coordinate compares equal to zero. *)
Definition all_zero {fl : Float64} (p q : Hamilton) : bool :=
  forallb (fun c => f_eqb c f_zero) (coords8 p q).

(** The guard of [Inv] and [Quo]: the comparison with the zero literal. *)
Definition is_zero_literal {fl : Float64} {Q : QuatArith fl} (p q : Hamilton) : bool :=
  Hamilton_Equals p Hamilton_0_0 && Hamilton_Equals q Hamilton_0_0.

(** A computation whose only panic is the nil dereference. *)
Definition only_nil {A : Type} (m : result A) : Prop :=
  forall e, m = Panic e -> e = NilDeref.

(** Infinite or NaN, by the tests of package [math]. *)
Definition nonfinite {fl : Float64} {M : Float64Math fl} (x : F) : bool :=
  IsNaN x || IsInf x 0.



(** The seventeen strings that [String] joins. *)
Definition pieces {fl : Float64} {M : Float64Math fl} (Sprintf_g : F -> string)
    (symb : list string) (v : list F) : list string :=
  match v, symb with
  | [v0; v1; v2; v3; v4; v5; v6; v7], [_; s1; s2; s3; s4; s5; s6; s7] =>
      ["("; Sprintf_g v0;
       coefficient Sprintf_g v1; s1; coefficient Sprintf_g v2; s2;
       coefficient Sprintf_g v3; s3; coefficient Sprintf_g v4; s4;
       coefficient Sprintf_g v5; s5; coefficient Sprintf_g v6; s6;
       coefficient Sprintf_g v7; s7; ")"]
  | _, _ => []
  end.

(** A formatter that prints the floats 0 to 9 as %g does, and nothing
    for the others. *)
Definition Sprintf_g_digit (x : float) : string :=
  if (x =? 0)%float then "0" else if (x =? 1)%float then "1" else if (x =? 2)%float then "2"
  else if (x =? 3)%float then "3" else if (x =? 4)%float then "4" else if (x =? 5)%float then "5"
  else if (x =? 6)%float then "6" else if (x =? 7)%float then "7" else if (x =? 8)%float then "8"
  else if (x =? 9)%float then "9" else EmptyString.

(** The test [conjugate(conjugate(x)) == x]: conjugate twice, then
    compare with [Equals]. *)
Definition Cayley_Conj_Conj_Equals {fl : Float64} {Q : QuatArith fl}
    (x : Cayley) : result bool :=
  x' ← Cayley_Conj x; x'' ← Cayley_Conj x'; Cayley_Equals x'' x.

Definition Klein_Conj_Conj_Equals {fl : Float64} {Q : QuatArith fl}
    (x : Klein) : result bool :=
  x' ← Klein_Conj x; x'' ← Klein_Conj x'; Klein_Equals x'' x.

(** ** The rest of cayley.go and octo.go *)

(** [Curv]: the body is comments, so the eight named results keep their
    zero values and [z] is not read. *)
Definition Cayley_Curv {fl : Float64} (z : Cayley)
  : result (F * F * F * F * F * F * F * F) :=
  Ok (f_zero, f_zero, f_zero, f_zero, f_zero, f_zero, f_zero, f_zero).

(** [const delta = 0.00000001], as the nearest binary64. *)
Definition delta : float := 0x1.5798ee2308c3ap-27%float.

(** [notEquals]: true if a and b are further apart than [delta]. *)
Definition notEquals (a b : float) : bool :=
  PrimFloat.ltb delta (a - b)%float || PrimFloat.ltb delta (b - a)%float.

(** Both pointers of a value are set. *)
Definition Cayley_set {fl : Float64} (x : Cayley) : bool :=
  match c0 x, c1 x with
  | Some _, Some _ => true
  | _, _ => false
  end.

Definition Klein_set {fl : Float64} (x : Klein) : bool :=
  match k0 x, k1 x with
  | Some _, Some _ => true
  | _, _ => false
  end.

(** A method that reads its operands: with every pointer set ([ok]) it
    returns a value with both pointers set, and otherwise it panics on
    the nil dereference. *)
Definition Cayley_reads {fl : Float64} (ok : bool) (m : result Cayley) : Prop :=
  if ok then exists z, m = Ok z /\ Cayley_set z = true
  else m = Panic NilDeref.

Definition Klein_reads {fl : Float64} (ok : bool) (m : result Klein) : Prop :=
  if ok then exists z, m = Ok z /\ Klein_set z = true
  else m = Panic NilDeref.

(** Zero or finite, on the specification of binary64. *)
Definition SF_finite (x : spec_float) : bool :=
  match x with
  | S754_zero _ | S754_finite _ _ _ => true
  | _ => false
  end.

(** * Properties *)

(** ** The product *)

Section Product.
Context {fl : Float64} {Q : QuatArith fl}.
Hypothesis Copy_ok : forall y, Hamilton_Copy y = y.

Lemma Cayley_Copy_value (p q : Hamilton) :
  Cayley_Copy (cayley p q) = Ok (cayley p q).
Proof using Copy_ok. unfold Cayley_Copy, cayley; simpl. now rewrite !Copy_ok. Qed.

Lemma Klein_Copy_value (p q : Hamilton) :
  Klein_Copy (klein p q) = Ok (klein p q).
Proof using Copy_ok. unfold Klein_Copy, klein; simpl. now rewrite !Copy_ok. Qed.

Lemma Cayley_Mul_value (p q r s : Hamilton) :
  Cayley_Mul (cayley p q) (cayley r s) =
  Ok (cayley
        (Hamilton_Sub (Hamilton_Mul p r) (Hamilton_Mul (Hamilton_Conj s) q))
        (Hamilton_Add (Hamilton_Mul s p) (Hamilton_Mul q (Hamilton_Conj r)))).
Proof using Copy_ok.
  unfold Cayley_Mul. rewrite !Cayley_Copy_value. reflexivity.
Qed.

Lemma Klein_Mul_value (p q r s : Hamilton) :
  Klein_Mul (klein p q) (klein r s) =
  Ok (klein
        (Hamilton_Add (Hamilton_Mul p r) (Hamilton_Mul (Hamilton_Conj s) q))
        (Hamilton_Add (Hamilton_Mul s p) (Hamilton_Mul q (Hamilton_Conj r)))).
Proof using Copy_ok.
  unfold Klein_Mul. rewrite !Klein_Copy_value. reflexivity.
Qed.
End Product.

(** C1: for x = (p, q) and y = (r, s), the Cayley product is
    (p r - conj(s) q, s p + q conj(r)) and the Klein product is
    (p r + conj(s) q, s p + q conj(r)): the two second components are the
    same quaternion, and the first components combine the same two
    quaternions, by [Sub] in one and by [Add] in the other.  This holds
    for every implementation of [quat] whose [Copy] copies. *)
Theorem Mul_doubling_rule {fl : Float64} (Q : QuatArith fl)
    (Copy_ok : forall y, Hamilton_Copy y = y) (p q r s : Hamilton) :
  let a := Hamilton_Mul p r in
  let b := Hamilton_Mul (Hamilton_Conj s) q in
  let c := Hamilton_Add (Hamilton_Mul s p) (Hamilton_Mul q (Hamilton_Conj r)) in
  Cayley_Mul (cayley p q) (cayley r s) = Ok (cayley (Hamilton_Sub a b) c)
  /\ Klein_Mul (klein p q) (klein r s) = Ok (klein (Hamilton_Add a b) c).
Proof.
  cbv zeta. split.
  - now apply Cayley_Mul_value.
  - now apply Klein_Mul_value.
Qed.

Lemma Mul_doubling_rule_witness :
  let p := (@quat_New binary64 1 2 3 4)%float in
  let q := (@quat_New binary64 5 6 7 8)%float in
  let r := (@quat_New binary64 2 0 1 0)%float in
  let s := (@quat_New binary64 0 1 0 3)%float in
  @Cayley_Mul binary64 quat (cayley p q) (cayley r s)
  = Ok (@NewCayley binary64 quat (-31) (-16) 17 32 3 12 11 16)%float
  /\ @Klein_Mul binary64 quat (klein p q) (klein r s)
     = Ok (@NewKlein binary64 quat 29 16 (-3) (-12) 3 12 11 16)%float.
Proof.
  intros p q r s.
  destruct (@Mul_doubling_rule binary64 quat (fun y => eq_refl) p q r s) as [HC HK].
  split.
  - rewrite HC. vm_compute. reflexivity.
  - rewrite HK. vm_compute. reflexivity.
Defined.

(** ** Values with both pointers set *)

Section Values.
Context {fl : Float64} {Q : QuatArith fl}.

Lemma Cayley_Equals_value (p q r s : Hamilton) :
  Cayley_Equals (cayley p q) (cayley r s)
  = Ok (Hamilton_Equals p r && Hamilton_Equals q s).
Proof.
  unfold Cayley_Equals; simpl.
  destruct (Hamilton_Equals p r); simpl; [|reflexivity].
  destruct (Hamilton_Equals q s); reflexivity.
Qed.

Lemma Klein_Equals_value (p q r s : Hamilton) :
  Klein_Equals (klein p q) (klein r s)
  = Ok (Hamilton_Equals p r && Hamilton_Equals q s).
Proof.
  unfold Klein_Equals; simpl.
  destruct (Hamilton_Equals p r); simpl; [|reflexivity].
  destruct (Hamilton_Equals q s); reflexivity.
Qed.

Lemma Cayley_Conj_value (p q : Hamilton) :
  Cayley_Conj (cayley p q) = Ok (cayley (Hamilton_Conj p) (Hamilton_Neg q)).
Proof. reflexivity. Qed.

Lemma Klein_Conj_value (p q : Hamilton) :
  Klein_Conj (klein p q) = Ok (klein (Hamilton_Conj p) (Hamilton_Neg q)).
Proof. reflexivity. Qed.

Lemma Cayley_Quad_value (p q : Hamilton) :
  Cayley_Quad (cayley p q) = Ok (f_add (Hamilton_Quad p) (Hamilton_Quad q)).
Proof. reflexivity. Qed.

Lemma Klein_Quad_value (p q : Hamilton) :
  Klein_Quad (klein p q) = Ok (f_sub (Hamilton_Quad p) (Hamilton_Quad q)).
Proof. reflexivity. Qed.

Lemma Cayley_Dil_value (p q : Hamilton) (a : F) :
  Cayley_Dil (cayley p q) a = Ok (cayley (Hamilton_Dil p a) (Hamilton_Dil q a)).
Proof. reflexivity. Qed.

Lemma Klein_Dil_value (p q : Hamilton) (a : F) :
  Klein_Dil (klein p q) a = Ok (klein (Hamilton_Dil p a) (Hamilton_Dil q a)).
Proof. reflexivity. Qed.

Lemma Cayley_Inv_value (p q : Hamilton) :
  Cayley_Inv (cayley p q) =
  if is_zero_literal p q then Panic (PanicMsg "inverse of zero")
  else
    let a := f_div f_one (f_add (Hamilton_Quad p) (Hamilton_Quad q)) in
    Ok (cayley (Hamilton_Dil (Hamilton_Conj p) a) (Hamilton_Dil (Hamilton_Neg q) a)).
Proof.
  unfold Cayley_Inv, Cayley_zero, is_zero_literal.
  rewrite Cayley_Equals_value; simpl.
  destruct (_ && _); reflexivity.
Qed.

Lemma Klein_Inv_value (p q : Hamilton) :
  Klein_Inv (klein p q) =
  if is_zero_literal p q then Panic (PanicMsg "inverse of zero")
  else
    let a := f_div f_one (f_sub (Hamilton_Quad p) (Hamilton_Quad q)) in
    Ok (klein (Hamilton_Dil (Hamilton_Conj p) a) (Hamilton_Dil (Hamilton_Neg q) a)).
Proof.
  unfold Klein_Inv, Klein_zero, is_zero_literal.
  rewrite Klein_Equals_value; simpl.
  destruct (_ && _); reflexivity.
Qed.

Lemma only_nil_Ok {A : Type} (a : A) : only_nil (Ok a).
Proof. intros e H; discriminate. Qed.

Lemma only_nil_Panic {A : Type} : only_nil (@Panic A NilDeref).
Proof. intros e H; now inversion H. Qed.

Lemma only_nil_bind {A B : Type} (m : result A) (k : A -> result B) :
  only_nil m -> (forall a, only_nil (k a)) -> only_nil (m ≫= k).
Proof.
  intros Hm Hk e. destruct m as [a|e']; simpl.
  - apply Hk.
  - intros H; inversion H; subst. now apply Hm.
Qed.

Lemma only_nil_deref {A : Type} (x : option A) : only_nil (deref x).
Proof. destruct x; [apply only_nil_Ok | apply only_nil_Panic]. Qed.

Lemma only_nil_call1 {A B : Type} (f : A -> B) (x : option A) :
  only_nil (call1 f x).
Proof.
  apply only_nil_bind; [apply only_nil_deref | intros; apply only_nil_Ok].
Qed.

Lemma only_nil_call2 {A B C : Type} (f : A -> B -> C) x y :
  only_nil (call2 f x y).
Proof.
  apply only_nil_bind; [apply only_nil_deref | intros].
  apply only_nil_bind; [apply only_nil_deref | intros; apply only_nil_Ok].
Qed.

Lemma only_nil_fresh {A : Type} (m : result A) :
  only_nil m -> only_nil (fresh m).
Proof. intros; apply only_nil_bind; [assumption | intros; apply only_nil_Ok]. Qed.

Ltac only_nil_tac :=
  repeat first
    [ apply only_nil_Ok
    | apply only_nil_fresh
    | apply only_nil_call1
    | apply only_nil_call2
    | apply only_nil_deref
    | apply only_nil_bind; [| intros ? ] ].

Lemma only_nil_Cayley_Copy (y : Cayley) : only_nil (Cayley_Copy y).
Proof. unfold Cayley_Copy. only_nil_tac. Qed.

Lemma only_nil_Klein_Copy (y : Klein) : only_nil (Klein_Copy y).
Proof. unfold Klein_Copy. only_nil_tac. Qed.

Lemma only_nil_Cayley_Mul (x y : Cayley) : only_nil (Cayley_Mul x y).
Proof.
  unfold Cayley_Mul.
  apply only_nil_bind; [apply only_nil_Cayley_Copy | intros p].
  apply only_nil_bind; [apply only_nil_Cayley_Copy | intros q].
  only_nil_tac.
Qed.

Lemma only_nil_Klein_Mul (x y : Klein) : only_nil (Klein_Mul x y).
Proof.
  unfold Klein_Mul.
  apply only_nil_bind; [apply only_nil_Klein_Copy | intros p].
  apply only_nil_bind; [apply only_nil_Klein_Copy | intros q].
  only_nil_tac.
Qed.

Lemma only_nil_Cayley_Dil (y : Cayley) (a : F) : only_nil (Cayley_Dil y a).
Proof. unfold Cayley_Dil. only_nil_tac. Qed.

Lemma only_nil_Klein_Dil (y : Klein) (a : F) : only_nil (Klein_Dil y a).
Proof. unfold Klein_Dil. only_nil_tac. Qed.

Lemma only_nil_Cayley_Sub (x y : Cayley) : only_nil (Cayley_Sub x y).
Proof. unfold Cayley_Sub. only_nil_tac. Qed.

Lemma Cayley_Quo_guard (x : Cayley) (p q : Hamilton) :
  Cayley_Quo x (cayley p q) = Panic (PanicMsg "denominator is zero")
  <-> is_zero_literal p q = true.
Proof.
  unfold Cayley_Quo, Cayley_zero. rewrite Cayley_Equals_value. simpl.
  fold (is_zero_literal p q). destruct (is_zero_literal p q).
  - tauto.
  - split; [|discriminate]. intros H.
    assert (Hn : only_nil
      (Cayley_Mul x (cayley (Hamilton_Conj p) (Hamilton_Neg q)) ≫= fun m =>
       Cayley_Dil m (f_div f_one (f_add (Hamilton_Quad p) (Hamilton_Quad q))))).
    { apply only_nil_bind; [apply only_nil_Cayley_Mul|].
      intros; apply only_nil_Cayley_Dil. }
    apply Hn in H. discriminate.
Qed.

Lemma Klein_Quo_guard (x : Klein) (p q : Hamilton) :
  Klein_Quo x (klein p q) = Panic (PanicMsg "denominator is zero")
  <-> is_zero_literal p q = true.
Proof.
  unfold Klein_Quo, Klein_zero. rewrite Klein_Equals_value. simpl.
  fold (is_zero_literal p q). destruct (is_zero_literal p q).
  - tauto.
  - split; [|discriminate]. intros H.
    assert (Hn : only_nil
      (Klein_Mul x (klein (Hamilton_Conj p) (Hamilton_Neg q)) ≫= fun m =>
       Klein_Dil m (f_div f_one (f_sub (Hamilton_Quad p) (Hamilton_Quad q))))).
    { apply only_nil_bind; [apply only_nil_Klein_Mul|].
      intros; apply only_nil_Klein_Dil. }
    apply Hn in H. discriminate.
Qed.
End Values.

Section Quotient.
Context {fl : Float64} {Q : QuatArith fl}.
Hypothesis Copy_ok : forall y, Hamilton_Copy y = y.

Lemma Cayley_Quo_value (r s p q : Hamilton) :
  Cayley_Quo (cayley r s) (cayley p q) =
  if is_zero_literal p q then Panic (PanicMsg "denominator is zero")
  else
    m ← Cayley_Mul (cayley r s) (cayley (Hamilton_Conj p) (Hamilton_Neg q));
    Cayley_Dil m (f_div f_one (f_add (Hamilton_Quad p) (Hamilton_Quad q))).
Proof.
  unfold Cayley_Quo, Cayley_zero, is_zero_literal.
  rewrite Cayley_Equals_value.
  destruct (_ && _); reflexivity.
Qed.

Lemma Klein_Quo_value (r s p q : Hamilton) :
  Klein_Quo (klein r s) (klein p q) =
  if is_zero_literal p q then Panic (PanicMsg "denominator is zero")
  else
    m ← Klein_Mul (klein r s) (klein (Hamilton_Conj p) (Hamilton_Neg q));
    Klein_Dil m (f_div f_one (f_sub (Hamilton_Quad p) (Hamilton_Quad q))).
Proof.
  unfold Klein_Quo, Klein_zero, is_zero_literal.
  rewrite Klein_Equals_value.
  destruct (_ && _); reflexivity.
Qed.

Lemma Cayley_Quo_panics_iff (r s p q : Hamilton) :
  panics (Cayley_Quo (cayley r s) (cayley p q)) <-> is_zero_literal p q = true.
Proof using Copy_ok.
  rewrite Cayley_Quo_value. destruct (is_zero_literal p q).
  - split; [reflexivity | intros _; now eexists].
  - rewrite Cayley_Mul_value by assumption.
    split; [intros [e H]; discriminate | discriminate].
Qed.

Lemma Klein_Quo_panics_iff (r s p q : Hamilton) :
  panics (Klein_Quo (klein r s) (klein p q)) <-> is_zero_literal p q = true.
Proof using Copy_ok.
  rewrite Klein_Quo_value. destruct (is_zero_literal p q).
  - split; [reflexivity | intros _; now eexists].
  - rewrite Klein_Mul_value by assumption.
    split; [intros [e H]; discriminate | discriminate].
Qed.
End Quotient.

(** ** The zero guard of [Inv] and [Quo] *)

Section ZeroGuard.
Context {fl : Float64}.
Local Existing Instance quat.

Lemma is_zero_literal_all_zero (p q : Hamilton) :
  is_zero_literal p q = all_zero p q.
Proof.
  destruct p as [[a b] [c d]], q as [[e f] [g h]].
  unfold is_zero_literal, all_zero, coords8, coords; simpl.
  unfold quat_Equals, c_eqb; simpl.
  rewrite andb_true_r, <- !andb_assoc. reflexivity.
Qed.

Lemma Cayley_Inv_panics (p q : Hamilton) :
  panics (Cayley_Inv (cayley p q)) <-> all_zero p q = true.
Proof.
  rewrite Cayley_Inv_value, is_zero_literal_all_zero.
  destruct (all_zero p q); split; intros H; try discriminate.
  - reflexivity.
  - now eexists.
  - destruct H as [e H]; discriminate.
Qed.

Lemma Klein_Inv_panics (p q : Hamilton) :
  panics (Klein_Inv (klein p q)) <-> all_zero p q = true.
Proof.
  rewrite Klein_Inv_value, is_zero_literal_all_zero.
  destruct (all_zero p q); split; intros H; try discriminate.
  - reflexivity.
  - now eexists.
  - destruct H as [e H]; discriminate.
Qed.

Lemma Cayley_Quo_panics (r s p q : Hamilton) :
  panics (Cayley_Quo (cayley r s) (cayley p q)) <-> all_zero p q = true.
Proof.
  rewrite <- is_zero_literal_all_zero.
  apply Cayley_Quo_panics_iff. reflexivity.
Qed.

Lemma Klein_Quo_panics (r s p q : Hamilton) :
  panics (Klein_Quo (klein r s) (klein p q)) <-> all_zero p q = true.
Proof.
  rewrite <- is_zero_literal_all_zero.
  apply Klein_Quo_panics_iff. reflexivity.
Qed.

(** C2: with the exact coordinate-wise equality of [quat], [Inv y] panics
    with "inverse of zero" exactly when the eight coordinates of [y]
    compare equal to zero, and it has no other panic; [Quo x y] panics
    with "denominator is zero" under the same condition on [y], whatever
    [x] is, and has no other panic when the pointers of [x] are set.  A
    panic is not a value: in that case nothing is returned.  The same
    holds of the inverse and quotient of the split variant as the spec
    gives them ([klein.go] defines neither).  On binary64 the zero
    value and a value with a negative zero among zeros are refused, the
    unit is inverted, and a zero denominator is refused before the
    numerator is read. *)
Theorem Inv_Quo_zero_guard (p q : Hamilton) :
  ((Cayley_Inv (cayley p q) = Panic (PanicMsg "inverse of zero")
    <-> all_zero p q = true)
   /\ (panics (Cayley_Inv (cayley p q)) <-> all_zero p q = true)
   /\ (forall x : Cayley,
        Cayley_Quo x (cayley p q) = Panic (PanicMsg "denominator is zero")
        <-> all_zero p q = true)
   /\ (forall r s : Hamilton,
        panics (Cayley_Quo (cayley r s) (cayley p q)) <-> all_zero p q = true))
  /\
  ((Klein_Inv (klein p q) = Panic (PanicMsg "inverse of zero")
    <-> all_zero p q = true)
   /\ (panics (Klein_Inv (klein p q)) <-> all_zero p q = true)
   /\ (forall x : Klein,
        Klein_Quo x (klein p q) = Panic (PanicMsg "denominator is zero")
        <-> all_zero p q = true)
   /\ (forall r s : Hamilton,
        panics (Klein_Quo (klein r s) (klein p q)) <-> all_zero p q = true))
  /\
  (let zero := (@NewCayley binary64 quat 0 0 0 0 0 0 0 0)%float in
   let nzero := (@NewCayley binary64 quat 0 0 0 0 0 neg_zero 0 0)%float in
   let one := (@NewCayley binary64 quat 1 0 0 0 0 0 0 0)%float in
   let mz := neg_zero in
   @Cayley_Inv binary64 quat zero = Panic (PanicMsg "inverse of zero")
   /\ @Cayley_Inv binary64 quat nzero = Panic (PanicMsg "inverse of zero")
   /\ @Cayley_Inv binary64 quat one
      = Ok (@NewCayley binary64 quat 1%float mz mz mz mz mz mz mz)
   /\ @Cayley_Quo binary64 quat one zero
      = Panic (PanicMsg "denominator is zero")
   /\ @Cayley_Quo binary64 quat new_Cayley zero
      = Panic (PanicMsg "denominator is zero")
   /\ @Cayley_Quo binary64 quat new_Cayley one = Panic NilDeref).
Proof.
  split; [|split]; [| |vm_compute; repeat split; reflexivity]; repeat split.
  all: try (rewrite Cayley_Inv_value, is_zero_literal_all_zero;
            destruct (all_zero p q); simpl; congruence).
  all: try (rewrite Klein_Inv_value, is_zero_literal_all_zero;
            destruct (all_zero p q); simpl; congruence).
  all: try (apply Cayley_Inv_panics; assumption).
  all: try (apply Klein_Inv_panics; assumption).
  all: try (rewrite <- is_zero_literal_all_zero; apply Cayley_Quo_guard; assumption).
  all: try (rewrite <- is_zero_literal_all_zero; apply Klein_Quo_guard; assumption).
  all: try (apply Cayley_Quo_panics; assumption).
  all: try (apply Klein_Quo_panics; assumption).
Qed.
End ZeroGuard.

(** ** Conjugation *)

Section Conjugation.
Context {fl : Float64} {Q : QuatArith fl} {HQ : QuatContract Q}.

Lemma Cayley_Conj_Conj (p q : Hamilton) :
  (x' ← Cayley_Conj (cayley p q); Cayley_Conj x') = Ok (cayley p q).
Proof using HQ.
  rewrite Cayley_Conj_value; simpl. unfold Cayley_Conj; simpl.
  now rewrite Conj_Conj, Neg_Neg.
Qed.

Lemma Klein_Conj_Conj (p q : Hamilton) :
  (x' ← Klein_Conj (klein p q); Klein_Conj x') = Ok (klein p q).
Proof using HQ.
  rewrite Klein_Conj_value; simpl. unfold Klein_Conj; simpl.
  now rewrite Conj_Conj, Neg_Neg.
Qed.

Lemma Cayley_Conj_Conj_Equals_value (p q : Hamilton) :
  Cayley_Conj_Conj_Equals (cayley p q)
  = Ok (Hamilton_Equals p p && Hamilton_Equals q q).
Proof using HQ.
  unfold Cayley_Conj_Conj_Equals. rewrite Cayley_Conj_value; simpl.
  rewrite Conj_Conj, Neg_Neg. apply Cayley_Equals_value.
Qed.

Lemma Klein_Conj_Conj_Equals_value (p q : Hamilton) :
  Klein_Conj_Conj_Equals (klein p q)
  = Ok (Hamilton_Equals p p && Hamilton_Equals q q).
Proof using HQ.
  unfold Klein_Conj_Conj_Equals. rewrite Klein_Conj_value; simpl.
  rewrite Conj_Conj, Neg_Neg. apply Klein_Equals_value.
Qed.
End Conjugation.

(** *** Negation and comparison of binary64 *)

Lemma float_opp_involutive (x : float) : (- - x)%float = x.
Proof.
  apply Prim2SF_inj. rewrite !opp_spec.
  destruct (Prim2SF x); simpl; rewrite ?negb_involutive; reflexivity.
Qed.

Lemma binary64_contract : QuatContract (@quat binary64).
Proof.
  split.
  - reflexivity.
  - intros [[a b] [c d]]. unfold Hamilton_Conj; simpl.
    unfold quat_Conj, c_conj, c_neg; simpl.
    now rewrite !float_opp_involutive.
  - intros [[a b] [c d]]. unfold Hamilton_Neg; simpl.
    unfold quat_Neg, c_neg; simpl.
    now rewrite !float_opp_involutive.
Qed.

Lemma float_eqb_refl (x : float) :
  PrimFloat.is_nan x = false -> PrimFloat.eqb x x = true.
Proof. unfold is_nan. now destruct (PrimFloat.eqb x x). Qed.

Lemma quat_Equals_refl (p : @Hamilton binary64) :
  existsb PrimFloat.is_nan (coords p) = false ->
  @quat_Equals binary64 p p = true.
Proof.
  destruct p as [[a b] [c d]]. unfold coords; simpl.
  intros H. repeat (apply orb_false_elim in H as [? H]).
  unfold quat_Equals, c_eqb; simpl.
  now rewrite !float_eqb_refl.
Qed.

(** C7, as the code has it: Conj(x) is (conj(p), -q) in both variants.
    When conjugation and negation of [quat] undo themselves, conjugating
    twice gives back x itself, coordinate for coordinate, so [Equals]
    answers on it and x what it answers on x and x: true as soon as the
    two components of x equal themselves.  On binary64, with the exact
    comparison of coordinates, that is every x with no NaN coordinate. *)
Theorem Conj_involutive {fl : Float64} (Q : QuatArith fl)
    (HQ : QuatContract Q) (p q : Hamilton) :
  (Cayley_Conj (cayley p q) = Ok (cayley (Hamilton_Conj p) (Hamilton_Neg q))
   /\ (x' ← Cayley_Conj (cayley p q); Cayley_Conj x') = Ok (cayley p q)
   /\ Cayley_Conj_Conj_Equals (cayley p q)
      = Ok (Hamilton_Equals p p && Hamilton_Equals q q))
  /\
  (Klein_Conj (klein p q) = Ok (klein (Hamilton_Conj p) (Hamilton_Neg q))
   /\ (x' ← Klein_Conj (klein p q); Klein_Conj x') = Ok (klein p q)
   /\ Klein_Conj_Conj_Equals (klein p q)
      = Ok (Hamilton_Equals p p && Hamilton_Equals q q))
  /\
  (forall p q : @Hamilton binary64,
      existsb PrimFloat.is_nan (coords8 p q) = false ->
      @Cayley_Conj_Conj_Equals binary64 quat (cayley p q) = Ok true
      /\ @Klein_Conj_Conj_Equals binary64 quat (klein p q) = Ok true).
Proof.
  split; [|split].
  - split; [reflexivity | split].
    + apply Cayley_Conj_Conj.
    + apply Cayley_Conj_Conj_Equals_value.
  - split; [reflexivity | split].
    + apply Klein_Conj_Conj.
    + apply Klein_Conj_Conj_Equals_value.
  - intros p' q' Hnan. unfold coords8 in Hnan.
    rewrite existsb_app in Hnan. apply orb_false_elim in Hnan as [Hp Hq].
    pose proof binary64_contract as HC.
    rewrite (@Cayley_Conj_Conj_Equals_value binary64 quat HC),
            (@Klein_Conj_Conj_Equals_value binary64 quat HC).
    change (@Hamilton_Equals binary64 quat) with (@quat_Equals binary64).
    rewrite !quat_Equals_refl by assumption. split; reflexivity.
Qed.

Lemma Conj_involutive_witness :
  let p := (@quat_New binary64 1 2 3 4)%float in
  let q := (@quat_New binary64 5 6 infinity neg_zero)%float in
  @Cayley_Conj binary64 quat (cayley p q)
  = Ok (@NewCayley binary64 quat 1 (-2) (-3) (-4) (-5) (-6) neg_infinity 0)%float
  /\ @Cayley_Conj_Conj_Equals binary64 quat (cayley p q) = Ok true.
Proof.
  intros p q.
  destruct (@Conj_involutive binary64 quat binary64_contract p q)
    as [[H1 _] [_ H3]].
  split.
  - rewrite H1. vm_compute. reflexivity.
  - apply (H3 p q). vm_compute. reflexivity.
Defined.

(** C7, as stated, fails on the NaN value: with exact comparison of
    binary64 coordinates a NaN does not equal itself, so the double
    conjugate of [CayleyNaN()] has the coordinates of that value and
    [Equals] still answers false on the two (as it does on the value and
    itself). *)
Lemma Conj_Conj_NaN_not_Equals :
  @Cayley_Conj_Conj_Equals binary64 quat
    (@CayleyNaN binary64 (@quat_special binary64 binary64_math))
  = Ok false.
Proof. vm_compute. reflexivity. Qed.

(** ** NaN *)

Section NaN.
Context {fl : Float64} {S : QuatSpecial fl}.

Lemma Cayley_IsNaN_value (p q : Hamilton) :
  Cayley_IsNaN (cayley p q)
  = Ok (negb (Hamilton_IsInf p || Hamilton_IsInf q)
        && (Hamilton_IsNaN p || Hamilton_IsNaN q)).
Proof.
  unfold Cayley_IsNaN; simpl.
  destruct (Hamilton_IsInf p); simpl; [reflexivity|].
  destruct (Hamilton_IsInf q); simpl; [reflexivity|].
  destruct (Hamilton_IsNaN p); simpl; [reflexivity|].
  destruct (Hamilton_IsNaN q); reflexivity.
Qed.

Lemma Klein_IsNaN_value (p q : Hamilton) :
  Klein_IsNaN (klein p q)
  = Ok (negb (Hamilton_IsInf p || Hamilton_IsInf q)
        && (Hamilton_IsNaN p || Hamilton_IsNaN q)).
Proof.
  unfold Klein_IsNaN; simpl.
  destruct (Hamilton_IsInf p); simpl; [reflexivity|].
  destruct (Hamilton_IsInf q); simpl; [reflexivity|].
  destruct (Hamilton_IsNaN p); simpl; [reflexivity|].
  destruct (Hamilton_IsNaN q); reflexivity.
Qed.

Lemma Cayley_IsInf_value (p q : Hamilton) :
  Cayley_IsInf (cayley p q) = Ok (Hamilton_IsInf p || Hamilton_IsInf q).
Proof.
  unfold Cayley_IsInf; simpl.
  destruct (Hamilton_IsInf p); simpl; [reflexivity|].
  destruct (Hamilton_IsInf q); reflexivity.
Qed.

Lemma Klein_IsInf_value (p q : Hamilton) :
  Klein_IsInf (klein p q) = Ok (Hamilton_IsInf p || Hamilton_IsInf q).
Proof.
  unfold Klein_IsInf; simpl.
  destruct (Hamilton_IsInf p); simpl; [reflexivity|].
  destruct (Hamilton_IsInf q); reflexivity.
Qed.
End NaN.

(** C9: on a value with both pointers set, IsNaN answers true exactly
    when neither quaternion component is infinite and at least one is
    NaN, in both variants; so it answers false as soon as a component is
    infinite, whatever the NaN predicate says.  With the predicates of
    [quat] on binary64, a value with an infinite coordinate and a NaN
    coordinate, in the same component or in the other one, is not NaN,
    while it is infinite. *)
Theorem IsNaN_infinity_first {fl : Float64} (S : QuatSpecial fl)
    (p q : Hamilton) :
  (exists b : bool,
      Cayley_IsNaN (cayley p q) = Ok b
      /\ Klein_IsNaN (klein p q) = Ok b
      /\ (b = true <->
          (Hamilton_IsInf p = false /\ Hamilton_IsInf q = false)
          /\ (Hamilton_IsNaN p = true \/ Hamilton_IsNaN q = true)))
  /\ (Hamilton_IsInf p = true \/ Hamilton_IsInf q = true ->
      Cayley_IsNaN (cayley p q) = Ok false
      /\ Klein_IsNaN (klein p q) = Ok false)
  /\ (let S64 := @quat_special binary64 binary64_math in
      let z1 := @cayley binary64 (@quat_New binary64 infinity 0 0 0)%float
                                 (@quat_New binary64 0 0 nan 0)%float in
      let z2 := @cayley binary64 (@quat_New binary64 1 nan neg_infinity 0)%float
                                 (@quat_New binary64 0 0 0 0)%float in
      let z3 := @klein binary64 (@quat_New binary64 0 0 0 nan)%float
                                (@quat_New binary64 0 infinity 0 0)%float in
      @Cayley_IsNaN binary64 S64 z1 = Ok false
      /\ @Cayley_IsInf binary64 S64 z1 = Ok true
      /\ @Cayley_IsNaN binary64 S64 z2 = Ok false
      /\ @Klein_IsNaN binary64 S64 z3 = Ok false
      /\ @Cayley_IsNaN binary64 S64 (@CayleyNaN binary64 S64) = Ok true
      /\ @Klein_IsNaN binary64 S64 (@KleinNaN binary64 S64) = Ok true).
Proof.
  split; [|split].
  - eexists. split; [apply Cayley_IsNaN_value|].
    split; [apply Klein_IsNaN_value|].
    destruct (Hamilton_IsInf p), (Hamilton_IsInf q),
      (Hamilton_IsNaN p), (Hamilton_IsNaN q); simpl; intuition congruence.
  - intros H. rewrite Cayley_IsNaN_value, Klein_IsNaN_value.
    destruct H as [-> | ->]; simpl; rewrite ?orb_true_r; auto.
  - vm_compute. repeat split; reflexivity.
Qed.

(** ** RectCayley *)

Section Rect.
Context {fl : Float64} {Q : QuatArith fl} {S : QuatSpecial fl}
  {M : Float64Math fl}.
Variable Sprintf_g : F -> string.

Lemma Cayley_Mul_nil_l (y : Cayley) : Cayley_Mul new_Cayley y = Panic NilDeref.
Proof. reflexivity. Qed.

Lemma Cayley_Mul_nil_r (x : Cayley) : Cayley_Mul x new_Cayley = Panic NilDeref.
Proof. destruct x as [[a|] [b|]]; reflexivity. Qed.

(** C10: whatever its eight arguments, RectCayley returns the value
    [new(Cayley)] made, with two nil pointers, and every method that
    reads a component of it panics on the nil dereference: String,
    Equals, Copy, IsInf, IsNaN, ScalR, ScalL, Dil, Neg, Conj, Add, Sub,
    Mul, Commutator, Associator, Quad and Inv, with the result as either
    operand; Quo with it as the numerator panics too (on the zero guard
    when the denominator is zero). *)
Theorem RectCayley_nil (r t1 t2 t3 t4 t5 t6 t7 : F) :
  let z := RectCayley r t1 t2 t3 t4 t5 t6 t7 in
  (c0 z = None /\ c1 z = None)
  /\ Cayley_String Sprintf_g z = Panic NilDeref
  /\ (forall y, Cayley_Equals z y = Panic NilDeref
                /\ Cayley_Equals y z = Panic NilDeref)
  /\ Cayley_Copy z = Panic NilDeref
  /\ Cayley_IsInf z = Panic NilDeref
  /\ Cayley_IsNaN z = Panic NilDeref
  /\ (forall a, Cayley_ScalR z a = Panic NilDeref
                /\ Cayley_ScalL a z = Panic NilDeref)
  /\ (forall a, Cayley_Dil z a = Panic NilDeref)
  /\ Cayley_Neg z = Panic NilDeref
  /\ Cayley_Conj z = Panic NilDeref
  /\ (forall y, Cayley_Add z y = Panic NilDeref
                /\ Cayley_Add y z = Panic NilDeref)
  /\ (forall y, Cayley_Sub z y = Panic NilDeref
                /\ Cayley_Sub y z = Panic NilDeref)
  /\ (forall y, Cayley_Mul z y = Panic NilDeref
                /\ Cayley_Mul y z = Panic NilDeref)
  /\ (forall y, Cayley_Commutator z y = Panic NilDeref
                /\ Cayley_Commutator y z = Panic NilDeref)
  /\ (forall x y, Cayley_Associator z x y = Panic NilDeref
                  /\ Cayley_Associator x z y = Panic NilDeref
                  /\ Cayley_Associator x y z = Panic NilDeref)
  /\ Cayley_Quad z = Panic NilDeref
  /\ Cayley_Inv z = Panic NilDeref
  /\ (forall x, Cayley_Quo x z = Panic NilDeref)
  /\ (forall y, panics (Cayley_Quo z y)).
Proof.
  cbv zeta. unfold RectCayley. cbv zeta.
  split; [split; reflexivity|].
  split; [reflexivity|].
  split; [intros [[a|] [b|]]; split; reflexivity|].
  do 3 (split; [reflexivity|]).
  split; [intros [a|]; split; reflexivity|].
  split; [intros a; reflexivity|].
  do 2 (split; [reflexivity|]).
  split; [intros [[a|] [b|]]; split; reflexivity|].
  split; [intros [[a|] [b|]]; split; reflexivity|].
  split; [intros y; split; [apply Cayley_Mul_nil_l | apply Cayley_Mul_nil_r]|].
  split.
  { intros y; split; unfold Cayley_Commutator.
    - now rewrite Cayley_Mul_nil_l.
    - destruct (Cayley_Mul y new_Cayley) as [m|e] eqn:Hm.
      + now rewrite Cayley_Mul_nil_r in Hm.
      + rewrite Cayley_Mul_nil_r in Hm. inversion Hm; subst. reflexivity. }
  split.
  { intros x y. unfold Cayley_Associator. split; [|split].
    - now rewrite Cayley_Mul_nil_l.
    - now rewrite Cayley_Mul_nil_r.
    - destruct (Cayley_Mul x y) as [xy|e] eqn:Hxy; simpl.
      + rewrite !Cayley_Mul_nil_r. reflexivity.
      + apply only_nil_Cayley_Mul in Hxy. now subst. }
  do 2 (split; [reflexivity|]).
  split; [intros x; reflexivity|].
  intros y. unfold Cayley_Quo.
  destruct (Cayley_Equals y Cayley_zero) as [[|]|e]; simpl;
    [now eexists | | now eexists].
  destruct (Cayley_Conj y) as [c|e]; simpl; [|now eexists].
  try rewrite Cayley_Mul_nil_l; now eexists.
Qed.
End Rect.

(** ** The norm form over the reals *)

Section Reals.
Local Existing Instance reals.
Local Existing Instance quat.
Local Open Scope R_scope.

Ltac reals_unfold :=
  unfold Hamilton_Quad, Hamilton_Mul, Hamilton_Conj, Hamilton_Add,
    Hamilton_Sub, Hamilton_Neg, Hamilton_Dil, quat, quat_Quad, quat_Mul,
    quat_Conj, quat_Add, quat_Sub, quat_Neg, quat_Dil, c_quad, c_mul, c_conj,
    c_add, c_sub, c_neg, c_scale, f_add, f_sub, f_mul, f_neg, f_div, f_one,
    f_zero, reals; simpl.

Lemma Cayley_Quad_Mul_reals (p q r s : Hamilton) :
  (xy ← Cayley_Mul (cayley p q) (cayley r s); Cayley_Quad xy)
  = Ok ((Hamilton_Quad p + Hamilton_Quad q) * (Hamilton_Quad r + Hamilton_Quad s)).
Proof.
  rewrite Cayley_Mul_value by reflexivity. simpl. rewrite Cayley_Quad_value.
  f_equal.
  destruct p as [[p1 p2] [p3 p4]], q as [[q1 q2] [q3 q4]],
    r as [[r1 r2] [r3 r4]], s as [[s1 s2] [s3 s4]].
  reals_unfold. ring.
Qed.
Lemma Klein_Quad_Mul_reals (p q r s : Hamilton) :
  (xy ← Klein_Mul (klein p q) (klein r s); Klein_Quad xy)
  = Ok ((Hamilton_Quad p - Hamilton_Quad q) * (Hamilton_Quad r - Hamilton_Quad s)).
Proof.
  rewrite Klein_Mul_value by reflexivity. simpl. rewrite Klein_Quad_value.
  f_equal.
  destruct p as [[p1 p2] [p3 p4]], q as [[q1 q2] [q3 q4]],
    r as [[r1 r2] [r3 r4]], s as [[s1 s2] [s3 s4]].
  reals_unfold. ring.
Qed.


(** C6, as the code has it: with real coordinates and the quaternion
    algebra over them, the quadrance of a product is the product of the
    quadrances, exactly, in the definite and in the split variant.  On
    binary64 the two sides can be far apart.  In the split variant the
    value x of coordinates 2^27 + 1/2, 0, 0, 0, 2^27, 0, 0, 0 has
    quadrance 2^27, so the product of the quadrances of x and x is 2^54,
    while the quadrance of Mul(x, x) is 0; nothing overflows.  In the
    definite variant the quadrances of 2^600 and 2^-600 are +Inf and 0,
    whose product is NaN, while the quadrance of their product is 1. *)
Theorem Quad_multiplicative (p q r s : Hamilton) :
  (exists nx ny : R,
      Cayley_Quad (cayley p q) = Ok nx
      /\ Cayley_Quad (cayley r s) = Ok ny
      /\ (xy ← Cayley_Mul (cayley p q) (cayley r s); Cayley_Quad xy)
         = Ok (nx * ny))
  /\ (exists nx ny : R,
      Klein_Quad (klein p q) = Ok nx
      /\ Klein_Quad (klein r s) = Ok ny
      /\ (xy ← Klein_Mul (klein p q) (klein r s); Klein_Quad xy)
         = Ok (nx * ny))
  /\ (let x := (@NewKlein binary64 quat 0x1.0000001p+27 0 0 0 0x1p+27 0 0 0)%float in
      @Klein_Quad binary64 quat x = Ok 0x1p+27%float
      /\ (0x1p+27 * 0x1p+27)%float = 0x1p+54%float
      /\ (xx ← @Klein_Mul binary64 quat x x; @Klein_Quad binary64 quat xx)
         = Ok 0%float)
  /\ (let u := (@NewCayley binary64 quat 0x1p+600 0 0 0 0 0 0 0)%float in
      let v := (@NewCayley binary64 quat 0x1p-600 0 0 0 0 0 0 0)%float in
      @Cayley_Quad binary64 quat u = Ok infinity
      /\ @Cayley_Quad binary64 quat v = Ok 0%float
      /\ (infinity * 0)%float = nan
      /\ (uv ← @Cayley_Mul binary64 quat u v; @Cayley_Quad binary64 quat uv)
         = Ok 1%float).
Proof.
  split; [|split; [|split]].
  - exists (Hamilton_Quad p + Hamilton_Quad q), (Hamilton_Quad r + Hamilton_Quad s).
    split; [reflexivity | split; [reflexivity|]].
    apply Cayley_Quad_Mul_reals.
  - exists (Hamilton_Quad p - Hamilton_Quad q), (Hamilton_Quad r - Hamilton_Quad s).
    split; [reflexivity | split; [reflexivity|]].
    apply Klein_Quad_Mul_reals.
  - vm_compute. repeat split; reflexivity.
  - vm_compute. repeat split; reflexivity.
Qed.
End Reals.

(** C6, as stated, fails on binary64: for the Klein value x of
    coordinates 2^27 + 1/2, 0, 0, 0, 2^27, 0, 0, 0 the quadrance of
    Mul(x, x) is 0 and the product of the quadrances of x and x is 2^54.
    The two are further apart than the tolerance [delta] of the package,
    and than any tolerance relative to either of them. *)
Lemma Quad_Mul_binary64_far_apart :
  @Klein_Quad binary64 quat
    (@NewKlein binary64 quat 0x1.0000001p+27 0 0 0 0x1p+27 0 0 0)%float
  = Ok 0x1p+27%float
  /\ (xx ← @Klein_Mul binary64 quat
             (@NewKlein binary64 quat 0x1.0000001p+27 0 0 0 0x1p+27 0 0 0)%float
             (@NewKlein binary64 quat 0x1.0000001p+27 0 0 0 0x1p+27 0 0 0)%float;
      @Klein_Quad binary64 quat xx) = Ok 0%float
  /\ (0x1p+27 * 0x1p+27)%float = 0x1p+54%float
  /\ notEquals 0%float 0x1p+54%float = true.
Proof. vm_compute. repeat split; reflexivity. Qed.

(** ** binary64 arithmetic *)

Section Binary64Facts.
Local Open Scope float_scope.

Lemma Prim2SF_zero : Prim2SF 0 = S754_zero false.
Proof. reflexivity. Qed.

Lemma Prim2SF_infinity : Prim2SF infinity = S754_infinity false.
Proof. reflexivity. Qed.

Lemma Prim2SF_neg_infinity : Prim2SF neg_infinity = S754_infinity true.
Proof. reflexivity. Qed.

Lemma float_eqb_zero (x : float) :
  (x =? 0) = true -> exists s, Prim2SF x = S754_zero s.
Proof.
  rewrite FloatAxioms.eqb_spec, Prim2SF_zero.
  destruct (Prim2SF x) as [s|s| |s m e]; simpl; try discriminate.
  - eauto.
  - destruct s; discriminate.
  - destruct s; discriminate.
Qed.

Lemma float_inverse_of_zero (n : float) :
  (n =? 0) = true -> exists s, Prim2SF (1 / n) = S754_infinity s.
Proof.
  intros H. destruct (float_eqb_zero n H) as [s Hs].
  rewrite FloatAxioms.div_spec, Hs. exists s. reflexivity.
Qed.

Lemma float_mul_infinity (c a : float) (s : bool) :
  Prim2SF a = S754_infinity s ->
  Prim2SF (c * a) = S754_nan \/ exists s', Prim2SF (c * a) = S754_infinity s'.
Proof.
  intros Ha. rewrite FloatAxioms.mul_spec, Ha.
  destruct (Prim2SF c) as [s'|s'| |s' m e]; simpl; eauto.
Qed.

Lemma nonfinite_spec (x : float) :
  @nonfinite binary64 binary64_math x = true <->
  (Prim2SF x = S754_nan \/ exists s, Prim2SF x = S754_infinity s).
Proof.
  unfold nonfinite; simpl. unfold is_nan.
  rewrite !FloatAxioms.eqb_spec, Prim2SF_infinity, Prim2SF_neg_infinity.
  destruct (Prim2SF x) as [s|s| |s m e].
  - simpl. split; [discriminate | intros [H|[s' H]]; discriminate].
  - destruct s; simpl; (split; [intros _; right; eauto | reflexivity]).
  - simpl. split; [intros _; now left | reflexivity].
  - unfold SFeqb, SFcompare.
    rewrite Z.compare_refl, Pos.compare_cont_refl.
    destruct s; simpl; (split; [discriminate | intros [H'|[s' H']]; discriminate]).
Qed.

Lemma nonfinite_mul_infinity (c a : float) (s : bool) :
  Prim2SF a = S754_infinity s ->
  @nonfinite binary64 binary64_math (c * a) = true.
Proof.
  intros Ha. apply nonfinite_spec. now apply float_mul_infinity with s.
Qed.








End Binary64Facts.

(** ** The norm form on binary64 and the inverse of an isotropic value *)

Section Binary64.
Local Existing Instance binary64.
Local Existing Instance binary64_math.
Local Existing Instance quat.
Local Existing Instance quat_special.
Local Open Scope float_scope.



Lemma quat_Dil_nonfinite (h : Hamilton) (a : float) (s : bool) :
  Prim2SF a = S754_infinity s ->
  Forall (fun c => nonfinite c = true) (coords (Hamilton_Dil h a)).
Proof.
  intros Ha. destruct h as [[x y] [z w]]. simpl.
  unfold quat_Dil, c_scale, coords; simpl.
  repeat constructor; now apply nonfinite_mul_infinity with s.
Qed.

Lemma quat_IsNaN_of_nonfinite (z : Hamilton) :
  Forall (fun c => nonfinite c = true) (coords z) ->
  quat_IsInf z = false -> quat_IsNaN z = true.
Proof.
  intros H Hinf. unfold quat_IsNaN. rewrite Hinf.
  destruct z as [[a b] [c d]]. unfold quat_IsInf, coords in *.
  cbn [real imag h0 h1 existsb negb andb] in *.
  apply Forall_cons in H as [Ha _]. unfold nonfinite in Ha.
  apply orb_false_elim in Hinf as [Hai _].
  rewrite Hai, orb_false_r in Ha. now rewrite Ha.
Qed.

Lemma nonfinite_IsInf_or_IsNaN (z0 z1 : Hamilton) :
  Forall (fun c => nonfinite c = true) (coords8 z0 z1) ->
  Klein_IsInf (klein z0 z1) = Ok true \/ Klein_IsNaN (klein z0 z1) = Ok true.
Proof.
  intros H. rewrite Klein_IsInf_value, Klein_IsNaN_value.
  apply Forall_app in H as [H0 _].
  destruct (Hamilton_IsInf z0) eqn:Hi0; [now left|].
  destruct (Hamilton_IsInf z1) eqn:Hi1; [now left|]. right.
  assert (Hn : Hamilton_IsNaN z0 = true)
    by now apply quat_IsNaN_of_nonfinite.
  now rewrite Hn.
Qed.
Lemma Klein_Inv_isotropic_value (p q : Hamilton) (n : float) :
  Klein_Equals (klein p q) Klein_zero = Ok false ->
  Klein_Quad (klein p q) = Ok n ->
  (n =? 0) = true ->
  exists z0 z1 : Hamilton,
    Klein_Inv (klein p q) = Ok (klein z0 z1)
    /\ Forall (fun c => nonfinite c = true) (coords8 z0 z1)
    /\ (Klein_IsInf (klein z0 z1) = Ok true
        \/ Klein_IsNaN (klein z0 z1) = Ok true).
Proof.
  intros Hnz Hq Hn.
  unfold Klein_zero in Hnz. rewrite Klein_Equals_value in Hnz.
  fold (is_zero_literal p q) in Hnz.
  rewrite Klein_Quad_value in Hq.
  assert (Hz : is_zero_literal p q = false) by congruence.
  assert (Hq' : f_sub (Hamilton_Quad p) (Hamilton_Quad q) = n) by congruence.
  destruct (float_inverse_of_zero n Hn) as [s Hs].
  exists (Hamilton_Dil (Hamilton_Conj p) (1 / n)),
         (Hamilton_Dil (Hamilton_Neg q) (1 / n)).
  assert (HF : Forall (fun c => nonfinite c = true)
                 (coords8 (Hamilton_Dil (Hamilton_Conj p) (1 / n))
                          (Hamilton_Dil (Hamilton_Neg q) (1 / n)))).
  { apply Forall_app. split; now apply quat_Dil_nonfinite with s. }
  split; [|split].
  - rewrite Klein_Inv_value, Hz. cbv zeta. rewrite Hq'. reflexivity.
  - exact HF.
  - now apply nonfinite_IsInf_or_IsNaN.
Qed.

(** C3: in the split variant on binary64, the value 1 + s (coordinates
    1, 0, 0, 0, 1, 0, 0, 0) is not the zero value and has quadrance 0;
    and for every value that is not the zero value and has quadrance 0,
    the inverse as the spec gives it does not panic: it returns a value
    whose eight coordinates are each infinite or NaN, which IsInf or IsNaN
    reports. *)
Theorem Klein_Inv_isotropic :
  (exists x : Klein,
      Klein_Equals x Klein_zero = Ok false /\ @Klein_Quad binary64 _ x = Ok 0)
  /\ (forall (p q : Hamilton) (n : float),
        Klein_Equals (klein p q) Klein_zero = Ok false ->
        Klein_Quad (klein p q) = Ok n ->
        (n =? 0) = true ->
        exists z0 z1 : Hamilton,
          Klein_Inv (klein p q) = Ok (klein z0 z1)
          /\ Forall (fun c => nonfinite c = true) (coords8 z0 z1)
          /\ (Klein_IsInf (klein z0 z1) = Ok true
              \/ Klein_IsNaN (klein z0 z1) = Ok true)).
Proof.
  split.
  - exists (@NewKlein binary64 _ 1 0 0 0 1 0 0 0). split; vm_compute; reflexivity.
  - apply Klein_Inv_isotropic_value.
Qed.

Lemma Klein_Inv_isotropic_witness :
  Klein_Inv (@NewKlein binary64 _ 1 0 0 0 1 0 0 0)
  = Ok (@NewKlein binary64 _ infinity nan nan nan neg_infinity nan nan nan)
  /\ exists z0 z1 : Hamilton,
      Klein_Inv (@NewKlein binary64 _ 1 0 0 0 1 0 0 0) = Ok (klein z0 z1)
      /\ Forall (fun c => nonfinite c = true) (coords8 z0 z1)
      /\ (Klein_IsInf (klein z0 z1) = Ok true
          \/ Klein_IsNaN (klein z0 z1) = Ok true).
Proof.
  split.
  - vm_compute. reflexivity.
  - apply (proj2 Klein_Inv_isotropic (@quat_New binary64 1 0 0 0) (@quat_New binary64 1 0 0 0) 0);
      vm_compute; reflexivity.
Defined.
End Binary64.


(** ** One-sided scaling against the product *)

Section Scaling.
Local Existing Instance binary64.
Local Existing Instance quat.
Local Open Scope float_scope.

(** C4 on the code: the doc comments of ScalR and ScalL give them as
    special cases of Mul, and the code departs from that.  With y = e4
    (coordinates 0, 0, 0, 0, 1, 0, 0, 0) and a = i, ScalR(y, a) is (0, i)
    while Mul(y, (a, 0)) is (0, -i); with y = e6 (coordinates 0, 0, 0, 0,
    0, 0, 1, 0) and a = i, ScalL(a, y) is (0, k) while Mul((a, 0), y) is
    (0, -k).  Equals tells each pair apart, in both variants. *)
Theorem ScalR_ScalL_not_Mul :
  let a := @quat_New binary64 0 1 0 0 in
  let e4 := @NewCayley binary64 _ 0 0 0 0 1 0 0 0 in
  let e6 := @NewCayley binary64 _ 0 0 0 0 0 0 1 0 in
  let s4 := @NewKlein binary64 _ 0 0 0 0 1 0 0 0 in
  let s6 := @NewKlein binary64 _ 0 0 0 0 0 0 1 0 in
  (Cayley_ScalR e4 (Some a) = Ok (@NewCayley binary64 _ 0 0 0 0 0 1 0 0)
   /\ Cayley_Mul e4 (cayley a Hamilton_0_0)
      = Ok (@NewCayley binary64 _ 0 0 0 0 0 (-1) 0 0)
   /\ (z ← Cayley_ScalR e4 (Some a); w ← Cayley_Mul e4 (cayley a Hamilton_0_0);
       Cayley_Equals z w) = Ok false)
  /\ (Cayley_ScalL (Some a) e6 = Ok (@NewCayley binary64 _ 0 0 0 0 0 0 0 1)
      /\ Cayley_Mul (cayley a Hamilton_0_0) e6
         = Ok (@NewCayley binary64 _ 0 0 0 0 0 0 0 (-1))
      /\ (z ← Cayley_ScalL (Some a) e6; w ← Cayley_Mul (cayley a Hamilton_0_0) e6;
          Cayley_Equals z w) = Ok false)
  /\ (z ← Klein_ScalR s4 (Some a); w ← Klein_Mul s4 (klein a Hamilton_0_0);
      Klein_Equals z w) = Ok false
  /\ (z ← Klein_ScalL (Some a) s6; w ← Klein_Mul (klein a Hamilton_0_0) s6;
      Klein_Equals z w) = Ok false.
Proof.
  vm_compute. repeat split; reflexivity.
Qed.
End Scaling.

(** ** String *)

Section Rendering.
Context {fl : Float64} {M : Float64Math fl}.
Variable Sprintf_g : F -> string.

Lemma Cayley_String_value (p q : Hamilton) :
  Cayley_String Sprintf_g (cayley p q)
  = Ok (String.concat EmptyString (pieces Sprintf_g symbCayley (coords8 p q))).
Proof. destruct p as [[a b] [c d]], q as [[e f] [g h]]. reflexivity. Qed.

Lemma Klein_String_value (p q : Hamilton) :
  Klein_String Sprintf_g (klein p q)
  = Ok (String.concat EmptyString (pieces Sprintf_g symbKlein (coords8 p q))).
Proof. destruct p as [[a b] [c d]], q as [[e f] [g h]]. reflexivity. Qed.
End Rendering.

Section Rendering64.
Local Existing Instance binary64.
Local Existing Instance binary64_math.
Local Existing Instance quat.
Local Open Scope float_scope.

Lemma Signbit_negative (x : float) : (x <? 0) = true -> Signbit x = true.
Proof.
  intros H. simpl. unfold get_sign, is_zero.
  assert (E : (x =? zero) = false).
  { rewrite FloatAxioms.ltb_spec in H. rewrite FloatAxioms.eqb_spec.
    change (Prim2SF zero) with (S754_zero false).
    rewrite Prim2SF_zero in H.
    destruct (Prim2SF x) as [s|s| |s m e]; simpl in *;
      try discriminate; destruct s; simpl in *; try discriminate; reflexivity. }
  rewrite E. exact H.
Qed.

Lemma Signbit_positive (x : float) : (0 <? x) = true -> Signbit x = false.
Proof.
  intros H. simpl. unfold get_sign, is_zero.
  rewrite FloatAxioms.ltb_spec, Prim2SF_zero in H.
  assert (E : (x =? zero) = false /\ (x <? zero) = false).
  { rewrite FloatAxioms.ltb_spec, FloatAxioms.eqb_spec.
    change (Prim2SF zero) with (S754_zero false).
    destruct (Prim2SF x) as [s|s| |s m e]; simpl in *;
      try discriminate; destruct s; simpl in *; try discriminate; auto. }
  destruct E as [E1 E2]. rewrite E1. exact E2.
Qed.

(** C8: when %g prints the floats 1 to 8 as the digits 1 to 8, the
    Cayley value of coordinates 1, ..., 8 renders as
    (1+2i+3j+4k+5m+6n+7p+8q) and the Klein value as
    (1+2i+3j+4k+5s+6t+7u+8v).  In general String joins "(", the first
    coordinate under %g, then for each later coordinate its coefficient
    and its symbol, and ")".  The coefficient of a coordinate below zero,
    or of negative zero, is its %g form with nothing added; that of
    positive infinity is +Inf; that of a coordinate above zero that is not
    infinite, or of positive zero, is + followed by its %g form. *)
Theorem String_rendering (Sprintf_g : float -> string)
    (Hg : map Sprintf_g [1; 2; 3; 4; 5; 6; 7; 8]
          = ["1"; "2"; "3"; "4"; "5"; "6"; "7"; "8"]%string) :
  Cayley_String Sprintf_g (@NewCayley binary64 _ 1 2 3 4 5 6 7 8)
  = Ok "(1+2i+3j+4k+5m+6n+7p+8q)"%string
  /\ Klein_String Sprintf_g (@NewKlein binary64 _ 1 2 3 4 5 6 7 8)
     = Ok "(1+2i+3j+4k+5s+6t+7u+8v)"%string
  /\ (forall p q : Hamilton,
        Cayley_String Sprintf_g (cayley p q)
        = Ok (String.concat EmptyString (pieces Sprintf_g symbCayley (coords8 p q)))
        /\ Klein_String Sprintf_g (klein p q)
           = Ok (String.concat EmptyString (pieces Sprintf_g symbKlein (coords8 p q))))
  /\ (forall x : float,
        (x <? 0) = true -> coefficient Sprintf_g x = Sprintf_g x)
  /\ coefficient Sprintf_g neg_zero = Sprintf_g neg_zero
  /\ coefficient Sprintf_g infinity = "+Inf"%string
  /\ (forall x : float,
        (0 <? x) = true -> (x =? infinity) = false ->
        coefficient Sprintf_g x = ("+" ++ Sprintf_g x)%string)
  /\ coefficient Sprintf_g 0 = ("+" ++ Sprintf_g 0)%string.
Proof.
  injection Hg as H1 H2 H3 H4 H5 H6 H7 H8.
  split; [|split; [|split; [|split; [|split; [|split; [|split]]]]]].
  - change (@NewCayley binary64 _ 1 2 3 4 5 6 7 8)
      with (@cayley binary64 (quat_New 1 2 3 4) (quat_New 5 6 7 8)).
    rewrite Cayley_String_value. unfold coords8, coords, pieces, symbCayley; simpl.
    unfold coefficient; simpl. rewrite H1, H2, H3, H4, H5, H6, H7, H8.
    reflexivity.
  - change (@NewKlein binary64 _ 1 2 3 4 5 6 7 8)
      with (@klein binary64 (quat_New 1 2 3 4) (quat_New 5 6 7 8)).
    rewrite Klein_String_value. unfold coords8, coords, pieces, symbKlein; simpl.
    unfold coefficient; simpl. rewrite H1, H2, H3, H4, H5, H6, H7, H8.
    reflexivity.
  - intros p q. split; [apply Cayley_String_value | apply Klein_String_value].
  - intros x Hx. unfold coefficient. now rewrite (Signbit_negative x Hx).
  - reflexivity.
  - reflexivity.
  - intros x Hx Hinf. unfold coefficient. rewrite (Signbit_positive x Hx).
    simpl. now rewrite Hinf.
  - reflexivity.
Qed.

Lemma String_rendering_witness :
  Cayley_String Sprintf_g_digit (@NewCayley binary64 _ 1 2 3 4 5 6 7 8)
  = Ok "(1+2i+3j+4k+5m+6n+7p+8q)"%string
  /\ Klein_String Sprintf_g_digit (@NewKlein binary64 _ 1 2 3 4 5 6 7 8)
     = Ok "(1+2i+3j+4k+5s+6t+7u+8v)"%string.
Proof.
  destruct (String_rendering Sprintf_g_digit eq_refl) as [HC [HK _]].
  split; assumption.
Defined.
End Rendering64.

(** * Further properties of the two files *)

(** ** Nil pointers *)

Section Pointers.
Context {fl : Float64} {Q : QuatArith fl} {S : QuatSpecial fl}.

Ltac by_pointers :=
  repeat match goal with
         | x : Cayley |- _ => destruct x as [[?|] [?|]]
         | x : Klein |- _ => destruct x as [[?|] [?|]]
         | a : option Hamilton |- _ => destruct a as [?|]
         end;
  simpl; try reflexivity; try (eexists; split; reflexivity).

(** X1: every arithmetic method of Cayley either finds all the pointers
    of its operands set and returns a value with both pointers set, or
    panics on the nil dereference; it has no other outcome.  Curv reads
    nothing and returns eight zeros. *)
Theorem Cayley_methods_read_pointers (x y w : Cayley) (a : F)
    (h : option Hamilton) :
  Cayley_reads (Cayley_set x) (Cayley_Copy x)
  /\ Cayley_reads (Cayley_set x) (Cayley_Conj x)
  /\ Cayley_reads (Cayley_set x) (Cayley_Neg x)
  /\ Cayley_reads (Cayley_set x) (Cayley_Dil x a)
  /\ Cayley_reads (Cayley_set x && bool_decide (is_Some h)) (Cayley_ScalR x h)
  /\ Cayley_reads (Cayley_set x && bool_decide (is_Some h)) (Cayley_ScalL h x)
  /\ Cayley_reads (Cayley_set x && Cayley_set y) (Cayley_Add x y)
  /\ Cayley_reads (Cayley_set x && Cayley_set y) (Cayley_Sub x y)
  /\ Cayley_reads (Cayley_set x && Cayley_set y) (Cayley_Mul x y)
  /\ Cayley_reads (Cayley_set x && Cayley_set y) (Cayley_Commutator x y)
  /\ Cayley_reads (Cayley_set w && Cayley_set x && Cayley_set y)
       (Cayley_Associator w x y)
  /\ Cayley_Curv x
     = Ok (f_zero, f_zero, f_zero, f_zero, f_zero, f_zero, f_zero, f_zero).
Proof.
  unfold Cayley_reads, Cayley_set.
  repeat split; by_pointers.
Qed.

(** X2: the same for the methods of Klein. *)
Theorem Klein_methods_read_pointers (x y w : Klein) (a : F)
    (h : option Hamilton) :
  Klein_reads (Klein_set x) (Klein_Copy x)
  /\ Klein_reads (Klein_set x) (Klein_Conj x)
  /\ Klein_reads (Klein_set x) (Klein_Neg x)
  /\ Klein_reads (Klein_set x) (Klein_Dil x a)
  /\ Klein_reads (Klein_set x && bool_decide (is_Some h)) (Klein_ScalR x h)
  /\ Klein_reads (Klein_set x && bool_decide (is_Some h)) (Klein_ScalL h x)
  /\ Klein_reads (Klein_set x && Klein_set y) (Klein_Add x y)
  /\ Klein_reads (Klein_set x && Klein_set y) (Klein_Sub x y)
  /\ Klein_reads (Klein_set x && Klein_set y) (Klein_Mul x y)
  /\ Klein_reads (Klein_set x && Klein_set y) (Klein_Commutator x y)
  /\ Klein_reads (Klein_set w && Klein_set x && Klein_set y)
       (Klein_Associator w x y).
Proof.
  unfold Klein_reads, Klein_set.
  repeat split; by_pointers.
Qed.
(** X3: Equals compares the first components before it reads the
    second pointers.  When the first components differ it answers false,
    also when a second pointer is nil; it panics exactly when a first
    pointer is nil, or the first components are equal and a second
    pointer is nil. *)
Theorem Equals_reads_second_late (z y : Cayley) (u v : Klein) :
  (forall p r : Hamilton,
      c0 z = Some p -> c0 y = Some r -> Hamilton_Equals p r = false ->
      Cayley_Equals z y = Ok false)
  /\ (panics (Cayley_Equals z y) <->
      c0 z = None \/ c0 y = None
      \/ (exists p r, c0 z = Some p /\ c0 y = Some r
                      /\ Hamilton_Equals p r = true
                      /\ (c1 z = None \/ c1 y = None)))
  /\ (forall p r : Hamilton,
      k0 u = Some p -> k0 v = Some r -> Hamilton_Equals p r = false ->
      Klein_Equals u v = Ok false)
  /\ (panics (Klein_Equals u v) <->
      k0 u = None \/ k0 v = None
      \/ (exists p r, k0 u = Some p /\ k0 v = Some r
                      /\ Hamilton_Equals p r = true
                      /\ (k1 u = None \/ k1 v = None))).
Proof.
  split; [|split; [|split]].
  - intros p r Hz Hy Hne. destruct z as [z0 z1], y as [y0 y1]; simpl in *.
    subst. unfold Cayley_Equals; simpl. now rewrite Hne.
  - destruct z as [[p|] z1], y as [[r|] y1]; unfold Cayley_Equals; simpl.
    + destruct (Hamilton_Equals p r) eqn:He; simpl.
      * destruct z1 as [q|], y1 as [s|]; simpl.
        -- split.
           ++ destruct (Hamilton_Equals q s); intros [e H]; discriminate.
           ++ intros [H|[H|(p' & r' & _ & _ & _ & [H|H])]]; discriminate.
        -- split; [intros _|intros _; now eexists].
           right; right. exists p, r. auto.
        -- split; [intros _|intros _; now eexists].
           right; right. exists p, r. auto.
        -- split; [intros _|intros _; now eexists].
           right; right. exists p, r. auto.
      * split; [intros [e H]; discriminate|].
        intros [H|[H|(p' & r' & Hp & Hr & He' & _)]]; try discriminate.
        inversion Hp; inversion Hr; subst. congruence.
    + split; [auto | intros _; now eexists].
    + split; [auto | intros _; now eexists].
    + split; [auto | intros _; now eexists].
  - intros p r Hz Hy Hne. destruct u as [z0 z1], v as [y0 y1]; simpl in *.
    subst. unfold Klein_Equals; simpl. now rewrite Hne.
  - destruct u as [[p|] z1], v as [[r|] y1]; unfold Klein_Equals; simpl.
    + destruct (Hamilton_Equals p r) eqn:He; simpl.
      * destruct z1 as [q|], y1 as [s|]; simpl.
        -- split.
           ++ destruct (Hamilton_Equals q s); intros [e H]; discriminate.
           ++ intros [H|[H|(p' & r' & _ & _ & _ & [H|H])]]; discriminate.
        -- split; [intros _|intros _; now eexists].
           right; right. exists p, r. auto.
        -- split; [intros _|intros _; now eexists].
           right; right. exists p, r. auto.
        -- split; [intros _|intros _; now eexists].
           right; right. exists p, r. auto.
      * split; [intros [e H]; discriminate|].
        intros [H|[H|(p' & r' & Hp & Hr & He' & _)]]; try discriminate.
        inversion Hp; inversion Hr; subst. congruence.
    + split; [auto | intros _; now eexists].
    + split; [auto | intros _; now eexists].
    + split; [auto | intros _; now eexists].
Qed.

(** X4: IsInf and IsNaN never both answer true, on any value: IsNaN
    answers false wherever IsInf answers true.  IsNaN panics on exactly
    the values IsInf panics on, and neither panics on a value with both
    pointers set; IsInf answers true without reading the second pointer
    when the first component is infinite. *)
Theorem IsInf_IsNaN_exclusive (z : Cayley) (u : Klein) :
  ((Cayley_IsInf z = Ok true -> Cayley_IsNaN z = Ok false)
   /\ (panics (Cayley_IsNaN z) <-> panics (Cayley_IsInf z))
   /\ (Cayley_set z = true -> ~ panics (Cayley_IsInf z))
   /\ (forall p, c0 z = Some p -> Hamilton_IsInf p = true ->
                 Cayley_IsInf z = Ok true))
  /\
  ((Klein_IsInf u = Ok true -> Klein_IsNaN u = Ok false)
   /\ (panics (Klein_IsNaN u) <-> panics (Klein_IsInf u))
   /\ (Klein_set u = true -> ~ panics (Klein_IsInf u))
   /\ (forall p, k0 u = Some p -> Hamilton_IsInf p = true ->
                 Klein_IsInf u = Ok true)).
Proof.
  split.
  - destruct z as [[p|] [q|]]; unfold Cayley_IsInf, Cayley_IsNaN, Cayley_set;
      simpl.
    + destruct (Hamilton_IsInf p) eqn:Hp; simpl;
        [|destruct (Hamilton_IsInf q) eqn:Hq; simpl;
          [|destruct (Hamilton_IsNaN p); simpl;
            [|destruct (Hamilton_IsNaN q); simpl]]];
        (repeat split; try discriminate; try reflexivity;
         try (intros [e H]; discriminate);
         try (intros _ [e H]; discriminate);
         try (intros p' Hp'; inversion Hp'; subst; congruence)).
    + destruct (Hamilton_IsInf p) eqn:Hp; simpl;
        (repeat split; try discriminate; try reflexivity;
         try (intros [e H]; discriminate); try (intros _; now eexists);
         try (intros p' Hp'; inversion Hp'; subst; congruence)).
    + repeat split; try discriminate; auto.
    + repeat split; try discriminate; auto.
  - destruct u as [[p|] [q|]]; unfold Klein_IsInf, Klein_IsNaN, Klein_set;
      simpl.
    + destruct (Hamilton_IsInf p) eqn:Hp; simpl;
        [|destruct (Hamilton_IsInf q) eqn:Hq; simpl;
          [|destruct (Hamilton_IsNaN p); simpl;
            [|destruct (Hamilton_IsNaN q); simpl]]];
        (repeat split; try discriminate; try reflexivity;
         try (intros [e H]; discriminate);
         try (intros _ [e H]; discriminate);
         try (intros p' Hp'; inversion Hp'; subst; congruence)).
    + destruct (Hamilton_IsInf p) eqn:Hp; simpl;
        (repeat split; try discriminate; try reflexivity;
         try (intros [e H]; discriminate); try (intros _; now eexists);
         try (intros p' Hp'; inversion Hp'; subst; congruence)).
    + repeat split; try discriminate; auto.
    + repeat split; try discriminate; auto.
Qed.
End Pointers.

(** ** Exact facts on binary64 *)

Section Binary64Exact.
Local Existing Instance binary64.
Local Existing Instance binary64_math.
Local Existing Instance quat.
Local Existing Instance quat_special.
Local Open Scope float_scope.

Lemma SF64add_comm (x y : spec_float) : SF64add x y = SF64add y x.
Proof.
  destruct x as [sx|sx| |sx mx ex], y as [sy|sy| |sy my ey];
    try (destruct sx, sy; reflexivity); try reflexivity.
  unfold SF64add, SFadd. rewrite (Z.min_comm ey ex).
  now rewrite Z.add_comm.
Qed.

Lemma float_add_comm (x y : float) : x + y = y + x.
Proof.
  apply Prim2SF_inj. rewrite !FloatAxioms.add_spec. apply SF64add_comm.
Qed.

Lemma SFeqb_sym (x y : spec_float) : SFeqb x y = SFeqb y x.
Proof.
  unfold SFeqb.
  destruct x as [sx|sx| |sx mx ex], y as [sy|sy| |sy my ey];
    try (destruct sx, sy; reflexivity); try (destruct sx; reflexivity);
    try (destruct sy; reflexivity); try reflexivity.
  unfold SFcompare.
  rewrite (Z.compare_antisym ex ey).
  pose proof (Pos.compare_cont_antisym mx my Eq) as Hm. simpl in Hm.
  rewrite <- Hm.
  destruct sx, sy; try reflexivity;
    destruct (ex ?= ey)%Z; simpl; try reflexivity;
    destruct (Pos.compare_cont Eq mx my); reflexivity.
Qed.

Lemma float_eqb_sym (x y : float) : (x =? y) = (y =? x).
Proof. rewrite !FloatAxioms.eqb_spec. apply SFeqb_sym. Qed.

Lemma float_opp_square (x : float) : (- x) * (- x) = x * x.
Proof.
  apply Prim2SF_inj. rewrite !FloatAxioms.mul_spec, opp_spec.
  destruct (Prim2SF x) as [s|s| |s m e]; simpl; try reflexivity;
    destruct s; reflexivity.
Qed.

Lemma quat_Add_comm (p r : Hamilton) : Hamilton_Add p r = Hamilton_Add r p.
Proof.
  destruct p as [[a b] [c d]], r as [[a' b'] [c' d']]. simpl.
  unfold quat_Add, c_add; simpl.
  now rewrite (float_add_comm a a'), (float_add_comm b b'),
    (float_add_comm c c'), (float_add_comm d d').
Qed.

Lemma quat_Equals_sym (p r : Hamilton) :
  Hamilton_Equals p r = Hamilton_Equals r p.
Proof.
  destruct p as [[a b] [c d]], r as [[a' b'] [c' d']]. simpl.
  unfold quat_Equals, c_eqb; simpl.
  now rewrite (float_eqb_sym a a'), (float_eqb_sym b b'),
    (float_eqb_sym c c'), (float_eqb_sym d d').
Qed.

Lemma quat_Quad_Conj (p : Hamilton) :
  Hamilton_Quad (Hamilton_Conj p) = Hamilton_Quad p.
Proof.
  destruct p as [[a b] [c d]]. simpl.
  unfold quat_Quad, quat_Conj, c_quad, c_conj, c_neg; simpl.
  now rewrite !float_opp_square.
Qed.

Lemma quat_Quad_Neg (p : Hamilton) :
  Hamilton_Quad (Hamilton_Neg p) = Hamilton_Quad p.
Proof.
  destruct p as [[a b] [c d]]. simpl.
  unfold quat_Quad, quat_Neg, c_quad, c_neg; simpl.
  now rewrite !float_opp_square.
Qed.

(** X15: on binary64, with coordinate-wise addition and comparison in
    [quat], Add gives the same result in either order of its operands and
    Equals the same answer, for every pair of values: with NaN or
    infinite coordinates, and with nil pointers, where both orders
    panic alike.  The same holds of Klein. *)
Theorem Add_Equals_symmetric (x y : Cayley) (u v : Klein) :
  Cayley_Add x y = Cayley_Add y x
  /\ Cayley_Equals x y = Cayley_Equals y x
  /\ Klein_Add u v = Klein_Add v u
  /\ Klein_Equals u v = Klein_Equals v u.
Proof.
  repeat match goal with |- _ /\ _ => split end.
  - destruct x as [[p|] [q|]], y as [[r|] [s|]];
      unfold Cayley_Add; unfold fresh, call1, call2, deref; cbn [mbind result_bind c0 c1 k0 k1]; try reflexivity.
    now rewrite (quat_Add_comm p r), (quat_Add_comm q s).
  - destruct x as [[p|] [q|]], y as [[r|] [s|]];
      unfold Cayley_Equals; unfold fresh, call1, call2, deref; cbn [mbind result_bind c0 c1 k0 k1]; try reflexivity;
      rewrite ?(quat_Equals_sym p r), ?(quat_Equals_sym q s); reflexivity.
  - destruct u as [[p|] [q|]], v as [[r|] [s|]];
      unfold Klein_Add; unfold fresh, call1, call2, deref; cbn [mbind result_bind c0 c1 k0 k1]; try reflexivity.
    now rewrite (quat_Add_comm p r), (quat_Add_comm q s).
  - destruct u as [[p|] [q|]], v as [[r|] [s|]];
      unfold Klein_Equals; unfold fresh, call1, call2, deref; cbn [mbind result_bind c0 c1 k0 k1]; try reflexivity;
      rewrite ?(quat_Equals_sym p r), ?(quat_Equals_sym q s); reflexivity.
Qed.

(** X16: on binary64 the quadrance of the conjugate is the quadrance,
    bit for bit, for every value: Quad(Conj(x)) = Quad(x) in both
    variants, whatever the coordinates (no rounding is involved, as the
    square of the negation of a float is its square). *)
Theorem Quad_Conj_exact (x : Cayley) (u : Klein) :
  (cx ← Cayley_Conj x; Cayley_Quad cx) = Cayley_Quad x
  /\ (cu ← Klein_Conj u; Klein_Quad cu) = Klein_Quad u.
Proof.
  split.
  - destruct x as [[p|] [q|]]; unfold Cayley_Conj, Cayley_Quad;
      unfold fresh, call1, call2, deref; cbn [mbind result_bind c0 c1 k0 k1]; try reflexivity.
    change (Ok (Hamilton_Quad (Hamilton_Conj p) + Hamilton_Quad (Hamilton_Neg q))
            = Ok (Hamilton_Quad p + Hamilton_Quad q)).
    now rewrite quat_Quad_Conj, quat_Quad_Neg.
  - destruct u as [[p|] [q|]]; unfold Klein_Conj, Klein_Quad;
      unfold fresh, call1, call2, deref; cbn [mbind result_bind c0 c1 k0 k1]; try reflexivity.
    change (Ok (Hamilton_Quad (Hamilton_Conj p) - Hamilton_Quad (Hamilton_Neg q))
            = Ok (Hamilton_Quad p - Hamilton_Quad q)).
    now rewrite quat_Quad_Conj, quat_Quad_Neg.
Qed.
(** *** Special values *)

Lemma Inf_is_infinite (a : Z) :
  IsInf (Inf a) 0 = true /\ IsNaN (Inf a) = false /\ (Inf a =? Inf a) = true.
Proof. simpl. destruct (0 <=? a)%Z; vm_compute; repeat split; reflexivity. Qed.

Lemma quat_Inf_facts (a b c d : Z) :
  Hamilton_IsInf (HamiltonInf a b c d) = true
  /\ Hamilton_IsNaN (HamiltonInf a b c d) = false
  /\ Hamilton_Equals (HamiltonInf a b c d) (HamiltonInf a b c d) = true.
Proof.
  destruct (Inf_is_infinite a) as (Ha & _ & Ea),
    (Inf_is_infinite b) as (_ & _ & Eb),
    (Inf_is_infinite c) as (_ & _ & Ec),
    (Inf_is_infinite d) as (_ & _ & Ed).
  assert (Hi : quat_IsInf (quat_Inf a b c d) = true).
  { unfold quat_IsInf, quat_Inf, coords; cbn [real imag h0 h1 existsb].
    now rewrite Ha. }
  split; [exact Hi | split].
  - change (quat_IsNaN (quat_Inf a b c d) = false).
    unfold quat_IsNaN. now rewrite Hi.
  - change (quat_Equals (quat_Inf a b c d) (quat_Inf a b c d) = true).
    unfold quat_Equals, quat_Inf, c_eqb; cbn [real imag h0 h1].
    change (@f_eqb binary64) with PrimFloat.eqb.
    now rewrite Ea, Eb, Ec, Ed.
Qed.

Lemma quat_Equals_self (p : Hamilton) :
  Hamilton_Equals p p = negb (existsb PrimFloat.is_nan (coords p)).
Proof.
  destruct p as [[a b] [c d]].
  change (quat_Equals (MkHamilton (Complex a b) (Complex c d))
            (MkHamilton (Complex a b) (Complex c d))
          = negb (existsb PrimFloat.is_nan [a; b; c; d])).
  unfold quat_Equals, c_eqb, is_nan; cbn [real imag h0 h1 existsb].
  change (@f_eqb binary64) with PrimFloat.eqb.
  destruct (a =? a), (b =? b), (c =? c), (d =? d); reflexivity.
Qed.

(** X17: on binary64, with the constructors and predicates of [quat] as
    the spec gives them: for every choice of the eight signs CayleyInf
    builds a value that IsInf reports, that IsNaN does not report, and
    that Equals itself; CayleyNaN builds a value that IsNaN reports and
    IsInf does not.  Equals answers true on a value and itself exactly
    when none of its eight coordinates is NaN, so never on a value IsNaN
    reports.  The same holds of Klein. *)
Theorem Special_values (a b c d e f g h : Z) (p q : Hamilton) :
  (Cayley_IsInf (CayleyInf a b c d e f g h) = Ok true
   /\ Cayley_IsNaN (CayleyInf a b c d e f g h) = Ok false
   /\ Cayley_Equals (CayleyInf a b c d e f g h) (CayleyInf a b c d e f g h)
      = Ok true
   /\ Cayley_IsNaN CayleyNaN = Ok true
   /\ Cayley_IsInf CayleyNaN = Ok false
   /\ Cayley_Equals (cayley p q) (cayley p q)
      = Ok (negb (existsb PrimFloat.is_nan (coords8 p q)))
   /\ (Cayley_IsNaN (cayley p q) = Ok true ->
       Cayley_Equals (cayley p q) (cayley p q) = Ok false))
  /\
  (Klein_IsInf (KleinInf a b c d e f g h) = Ok true
   /\ Klein_IsNaN (KleinInf a b c d e f g h) = Ok false
   /\ Klein_Equals (KleinInf a b c d e f g h) (KleinInf a b c d e f g h)
      = Ok true
   /\ Klein_IsNaN KleinNaN = Ok true
   /\ Klein_IsInf KleinNaN = Ok false
   /\ Klein_Equals (klein p q) (klein p q)
      = Ok (negb (existsb PrimFloat.is_nan (coords8 p q)))
   /\ (Klein_IsNaN (klein p q) = Ok true ->
       Klein_Equals (klein p q) (klein p q) = Ok false)).
Proof.
  destruct (quat_Inf_facts a b c d) as (I1 & N1 & E1),
    (quat_Inf_facts e f g h) as (I2 & N2 & E2).
  assert (Hself : Hamilton_Equals p p && Hamilton_Equals q q
                  = negb (existsb PrimFloat.is_nan (coords8 p q))).
  { unfold coords8. rewrite existsb_app, !quat_Equals_self.
    symmetry. apply negb_orb. }
  assert (Hnan : negb (Hamilton_IsInf p || Hamilton_IsInf q)
                 && (Hamilton_IsNaN p || Hamilton_IsNaN q) = true ->
                 negb (existsb PrimFloat.is_nan (coords8 p q)) = false).
  { intros H. apply andb_true_iff in H as [_ H]. apply orb_true_iff in H.
    unfold coords8. rewrite existsb_app.
    apply negb_false_iff, orb_true_iff.
    destruct H as [H|H]; [left | right];
      (change (quat_IsNaN p = true) in H || change (quat_IsNaN q = true) in H);
      unfold quat_IsNaN in H; apply andb_true_iff in H as [_ H]; exact H. }
  split.
  - unfold CayleyInf, CayleyNaN.
    fold (cayley (HamiltonInf a b c d) (HamiltonInf e f g h)).
    fold (cayley HamiltonNaN HamiltonNaN).
    rewrite !Cayley_IsInf_value, !Cayley_IsNaN_value, !Cayley_Equals_value.
    rewrite I1, E1, E2, Hself.
    repeat match goal with |- _ /\ _ => split end; try reflexivity.
    intros H. f_equal. apply Hnan. congruence.
  - unfold KleinInf, KleinNaN.
    fold (klein (HamiltonInf a b c d) (HamiltonInf e f g h)).
    fold (klein HamiltonNaN HamiltonNaN).
    rewrite !Klein_IsInf_value, !Klein_IsNaN_value, !Klein_Equals_value.
    rewrite I1, E1, E2, Hself.
    repeat match goal with |- _ /\ _ => split end; try reflexivity.
    intros H. f_equal. apply Hnan. congruence.
Qed.
(** X18: on binary64 the product is neither commutative nor
    associative, in either variant: the commutator of i and j is 2k, and
    the associator of i, j and the fifth unit (m, resp. s) is twice the
    eighth unit (q, resp. v); neither equals the zero value. *)
Theorem Mul_not_commutative_not_associative :
  let i := @NewCayley binary64 _ 0 1 0 0 0 0 0 0 in
  let j := @NewCayley binary64 _ 0 0 1 0 0 0 0 0 in
  let m := @NewCayley binary64 _ 0 0 0 0 1 0 0 0 in
  let i' := @NewKlein binary64 _ 0 1 0 0 0 0 0 0 in
  let j' := @NewKlein binary64 _ 0 0 1 0 0 0 0 0 in
  let s := @NewKlein binary64 _ 0 0 0 0 1 0 0 0 in
  ((c ← Cayley_Commutator i j;
    Cayley_Equals c (@NewCayley binary64 _ 0 0 0 2 0 0 0 0)) = Ok true
   /\ (c ← Cayley_Commutator i j; Cayley_Equals c Cayley_zero) = Ok false
   /\ (a ← Cayley_Associator i j m;
       Cayley_Equals a (@NewCayley binary64 _ 0 0 0 0 0 0 0 2)) = Ok true
   /\ (a ← Cayley_Associator i j m; Cayley_Equals a Cayley_zero) = Ok false)
  /\
  ((c ← Klein_Commutator i' j';
    Klein_Equals c (@NewKlein binary64 _ 0 0 0 2 0 0 0 0)) = Ok true
   /\ (c ← Klein_Commutator i' j'; Klein_Equals c Klein_zero) = Ok false
   /\ (a ← Klein_Associator i' j' s;
       Klein_Equals a (@NewKlein binary64 _ 0 0 0 0 0 0 0 2)) = Ok true
   /\ (a ← Klein_Associator i' j' s; Klein_Equals a Klein_zero) = Ok false).
Proof. vm_compute. repeat split; reflexivity. Qed.
End Binary64Exact.

(** ** Multiplication by 1 and by -1, and degenerate inverses *)

Section Binary64Scaling.
Local Existing Instance binary64.
Local Existing Instance binary64_math.
Local Existing Instance quat.
Local Existing Instance quat_special.
Local Open Scope float_scope.

Lemma shift52 (m : positive) :
  (m * 4503599627370496)%positive = Pos.iter xO m 52.
Proof. rewrite Pos.mul_comm. reflexivity. Qed.

Lemma digits_shift52 (m : positive) :
  (Zpos (digits2_pos (Pos.iter xO m 52)) = Zpos (digits2_pos m) + 52)%Z.
Proof. cbn [Pos.iter digits2_pos]. lia. Qed.

Lemma SF64mul_unit (s s' : bool) (m : positive) (e : Z) :
  bounded prec emax m e = true ->
  SF64mul (S754_finite s m e) (S754_finite s' 4503599627370496 (-52))
  = S754_finite (xorb s s') m e.
Proof.
  intros Hb. unfold bounded in Hb. apply andb_true_iff in Hb as [Hc He].
  unfold canonical_mantissa in Hc. apply Z.eqb_eq in Hc.
  unfold SF64mul, SFmul, binary_round_aux.
  rewrite shift52.
  unfold shr_fexp at 1. unfold Zdigits2.
  rewrite digits_shift52.
  replace (Z.pos (digits2_pos m) + 52 + (e + -52))%Z
    with (Z.pos (digits2_pos m) + e)%Z by lia.
  rewrite Hc.
  replace (e - (e + -52))%Z with 52%Z by lia.
  unfold shr_record_of_loc, shr.
  change (SpecFloat.iter_pos shr_1 52
            {| shr_m := Z.pos (Pos.iter xO m 52);
               shr_r := false; shr_s := false |})
    with {| shr_m := Z.pos m; shr_r := false; shr_s := false |}.
  replace (e + -52 + 52)%Z with e by lia.
  cbn [shr_m loc_of_shr_record round_nearest_even].
  unfold shr_fexp, Zdigits2. rewrite Hc, Z.sub_diag.
  cbn [shr shr_record_of_loc shr_m]. now rewrite He.
Qed.

Lemma SF64mul_unit_any (x : spec_float) (s' : bool) :
  valid_binary x = true ->
  SF64mul x (S754_finite s' 4503599627370496 (-52))
  = if s' then SFopp x else x.
Proof.
  intros Hv. destruct x as [s|s| |s m e].
  - destruct s, s'; reflexivity.
  - destruct s, s'; reflexivity.
  - destruct s'; reflexivity.
  - rewrite SF64mul_unit by exact Hv. destruct s, s'; reflexivity.
Qed.

Lemma float_mul_one (x : float) : x * 1 = x.
Proof.
  apply Prim2SF_inj. rewrite FloatAxioms.mul_spec.
  change (Prim2SF 1) with (S754_finite false 4503599627370496 (-52)).
  now rewrite SF64mul_unit_any by apply Prim2SF_valid.
Qed.

Lemma float_mul_minus_one (x : float) : x * (- (1)) = - x.
Proof.
  apply Prim2SF_inj. rewrite FloatAxioms.mul_spec.
  change (Prim2SF (- (1))) with (S754_finite true 4503599627370496 (-52)).
  rewrite opp_spec.
  now rewrite SF64mul_unit_any by apply Prim2SF_valid.
Qed.

Lemma SF64sub_add_opp (x y : spec_float) :
  SF64sub x y = SF64add x (SFopp y).
Proof.
  destruct x as [sx|sx| |sx mx ex], y as [sy|sy| |sy my ey];
    try reflexivity; destruct sx, sy; reflexivity.
Qed.

Lemma float_sub_add_opp (x y : float) : x - y = x + - y.
Proof.
  apply Prim2SF_inj.
  rewrite FloatAxioms.sub_spec, FloatAxioms.add_spec, opp_spec.
  apply SF64sub_add_opp.
Qed.

Lemma quat_Dil_one (p : Hamilton) : Hamilton_Dil p 1 = p.
Proof.
  destruct p as [[a b] [c d]].
  change (quat_Dil (MkHamilton (Complex a b) (Complex c d)) 1
          = MkHamilton (Complex a b) (Complex c d)).
  unfold quat_Dil, c_scale; cbn [real imag h0 h1].
  change (@f_mul binary64) with PrimFloat.mul.
  now rewrite !float_mul_one.
Qed.

Lemma quat_Dil_minus_one (p : Hamilton) :
  Hamilton_Dil p (f_neg f_one) = Hamilton_Neg p.
Proof.
  destruct p as [[a b] [c d]].
  change (quat_Dil (MkHamilton (Complex a b) (Complex c d)) (- (1))
          = quat_Neg (MkHamilton (Complex a b) (Complex c d))).
  unfold quat_Dil, quat_Neg, c_scale, c_neg; cbn [real imag h0 h1].
  change (@f_mul binary64) with PrimFloat.mul.
  change (@f_neg binary64) with PrimFloat.opp.
  now rewrite !float_mul_minus_one.
Qed.

Lemma quat_Sub_Add_Neg (p r : Hamilton) :
  Hamilton_Sub p r = Hamilton_Add p (Hamilton_Neg r).
Proof.
  destruct p as [[a b] [c d]], r as [[a' b'] [c' d']].
  change (quat_Sub (MkHamilton (Complex a b) (Complex c d))
            (MkHamilton (Complex a' b') (Complex c' d'))
          = quat_Add (MkHamilton (Complex a b) (Complex c d))
              (quat_Neg (MkHamilton (Complex a' b') (Complex c' d')))).
  unfold quat_Sub, quat_Add, quat_Neg, c_sub, c_add, c_neg;
    cbn [real imag h0 h1].
  change (@f_sub binary64) with PrimFloat.sub.
  change (@f_add binary64) with PrimFloat.add.
  change (@f_neg binary64) with PrimFloat.opp.
  now rewrite !float_sub_add_opp.
Qed.

Lemma quat_Neg_Conj (p : Hamilton) :
  Hamilton_Neg (Hamilton_Conj p) = Hamilton_Conj (Hamilton_Neg p).
Proof. destruct p as [[a b] [c d]]. reflexivity. Qed.

Ltac pointers_then tac :=
  repeat match goal with
         | x : Cayley |- _ => destruct x as [[?|] [?|]]
         | x : Klein |- _ => destruct x as [[?|] [?|]]
         end;
  unfold fresh, call1, call2, deref;
  cbn [mbind result_bind c0 c1 k0 k1];
  try reflexivity; tac.

(** X5: on binary64, with coordinate-wise scaling and negation in
    [quat], no rounding enters the linear methods below.  Dil by 1
    returns a copy of its operand bit for bit; Neg, which is Dil by -1,
    flips the sign of every coordinate, so Neg twice returns a copy;
    Sub(x, y) is Add(x, Neg(y)) bit for bit; Neg commutes with Conj; and
    Quad(Neg(x)) is Quad(x).  Each identity holds for every value, NaN
    and infinite coordinates included, and both sides panic alike on a
    nil pointer.  The same holds of Klein. *)
Theorem Dil_Neg_Sub_exact (x y : Cayley) (u v : Klein) :
  (Cayley_Dil x 1 = Cayley_Copy x
   /\ (n ← Cayley_Neg x; Cayley_Neg n) = Cayley_Copy x
   /\ Cayley_Sub x y = (n ← Cayley_Neg y; Cayley_Add x n)
   /\ (c ← Cayley_Conj x; Cayley_Neg c) = (n ← Cayley_Neg x; Cayley_Conj n)
   /\ (n ← Cayley_Neg x; Cayley_Quad n) = Cayley_Quad x)
  /\
  (Klein_Dil u 1 = Klein_Copy u
   /\ (n ← Klein_Neg u; Klein_Neg n) = Klein_Copy u
   /\ Klein_Sub u v = (n ← Klein_Neg v; Klein_Add u n)
   /\ (c ← Klein_Conj u; Klein_Neg c) = (n ← Klein_Neg u; Klein_Conj n)
   /\ (n ← Klein_Neg u; Klein_Quad n) = Klein_Quad u).
Proof.
  pose proof (@Neg_Neg binary64 quat binary64_contract) as HNN.
  split; repeat match goal with |- _ /\ _ => split end.
  - unfold Cayley_Dil, Cayley_Copy.
    pointers_then ltac:(now rewrite !quat_Dil_one).
  - unfold Cayley_Neg, Cayley_Dil, Cayley_Copy.
    pointers_then ltac:(now rewrite !quat_Dil_minus_one, !HNN).
  - unfold Cayley_Neg, Cayley_Dil, Cayley_Sub, Cayley_Add.
    pointers_then ltac:(now rewrite !quat_Dil_minus_one, !quat_Sub_Add_Neg).
  - unfold Cayley_Neg, Cayley_Dil, Cayley_Conj.
    pointers_then ltac:(now rewrite !quat_Dil_minus_one, quat_Neg_Conj).
  - unfold Cayley_Neg, Cayley_Dil, Cayley_Quad.
    pointers_then ltac:(now rewrite !quat_Dil_minus_one, !quat_Quad_Neg).
  - unfold Klein_Dil, Klein_Copy.
    pointers_then ltac:(now rewrite !quat_Dil_one).
  - unfold Klein_Neg, Klein_Dil, Klein_Copy.
    pointers_then ltac:(now rewrite !quat_Dil_minus_one, !HNN).
  - unfold Klein_Neg, Klein_Dil, Klein_Sub, Klein_Add.
    pointers_then ltac:(now rewrite !quat_Dil_minus_one, !quat_Sub_Add_Neg).
  - unfold Klein_Neg, Klein_Dil, Klein_Conj.
    pointers_then ltac:(now rewrite !quat_Dil_minus_one, quat_Neg_Conj).
  - unfold Klein_Neg, Klein_Dil, Klein_Quad.
    pointers_then ltac:(now rewrite !quat_Dil_minus_one, !quat_Quad_Neg).
Qed.
Lemma float_eqb_infinity (n : float) :
  (n =? infinity) = true -> Prim2SF n = S754_infinity false.
Proof.
  rewrite FloatAxioms.eqb_spec, Prim2SF_infinity.
  destruct (Prim2SF n) as [s|s| |s m e]; simpl; try discriminate;
    destruct s; try discriminate; reflexivity.
Qed.

Lemma float_inverse_of_infinity (n : float) :
  (n =? infinity) = true -> Prim2SF (1 / n) = S754_zero false.
Proof.
  intros H. apply float_eqb_infinity in H.
  rewrite FloatAxioms.div_spec, H. reflexivity.
Qed.

Lemma SF_finite_spec (c : float) :
  nonfinite c = false -> SF_finite (Prim2SF c) = true.
Proof.
  intros H. pose proof (nonfinite_spec c) as Hs.
  destruct (Prim2SF c) as [s|s| |s m e]; try reflexivity.
  - rewrite (proj2 Hs) in H; [discriminate | right; eauto].
  - rewrite (proj2 Hs) in H; [discriminate | now left].
Qed.

Lemma SF_finite_opp (c : float) :
  SF_finite (Prim2SF c) = true -> SF_finite (Prim2SF (- c)) = true.
Proof. rewrite opp_spec. now destruct (Prim2SF c). Qed.

Lemma float_mul_zero (c a : float) (s : bool) :
  SF_finite (Prim2SF c) = true -> Prim2SF a = S754_zero s ->
  (c * a =? 0) = true.
Proof.
  intros Hc Ha. rewrite FloatAxioms.eqb_spec, FloatAxioms.mul_spec, Ha.
  destruct (Prim2SF c) as [s'|s'| |s' m e]; try discriminate;
    destruct s, s'; reflexivity.
Qed.

Lemma coords8_finite (p q : Hamilton) :
  existsb nonfinite (coords8 p q) = false ->
  Forall (fun c => SF_finite (Prim2SF c) = true) (coords8 p q).
Proof.
  intros H. apply Forall_forall. intros c Hc.
  apply SF_finite_spec. apply not_true_is_false. intros Hn.
  apply list_elem_of_In in Hc.
  assert (existsb nonfinite (coords8 p q) = true)
    by (apply existsb_exists; eauto).
  congruence.
Qed.

Lemma Inv_coords_zero (p q : Hamilton) (a : float) (s : bool) :
  Forall (fun c => SF_finite (Prim2SF c) = true) (coords8 p q) ->
  Prim2SF a = S754_zero s ->
  all_zero (Hamilton_Dil (Hamilton_Conj p) a) (Hamilton_Dil (Hamilton_Neg q) a)
  = true.
Proof.
  intros H Ha. destruct p as [[a0 a1] [a2 a3]], q as [[a4 a5] [a6 a7]].
  unfold coords8, coords in H. cbn [real imag h0 h1 app] in H.
  repeat match goal with
         | H : Forall _ (_ :: _) |- _ => apply Forall_cons in H as [? H]
         end.
  unfold all_zero, coords8, coords.
  change (@Hamilton_Dil binary64 quat) with (@quat_Dil binary64).
  change (@Hamilton_Conj binary64 quat) with (@quat_Conj binary64).
  change (@Hamilton_Neg binary64 quat) with (@quat_Neg binary64).
  unfold quat_Dil, quat_Conj, quat_Neg, c_scale, c_conj, c_neg.
  cbn [real imag h0 h1 app forallb].
  change (@f_mul binary64) with PrimFloat.mul.
  change (@f_neg binary64) with PrimFloat.opp.
  change (@f_eqb binary64) with PrimFloat.eqb.
  change (@f_zero binary64) with 0.
  rewrite !(fun c H => float_mul_zero c a s H Ha)
    by (try apply SF_finite_opp; assumption).
  reflexivity.
Qed.

Lemma quat_Quad_zero (p : Hamilton) :
  forallb (fun c => c =? 0) (coords p) = true ->
  Prim2SF (Hamilton_Quad p) = S754_zero false.
Proof.
  destruct p as [[a b] [c d]]. unfold coords. cbn [real imag h0 h1 forallb].
  rewrite !andb_true_iff. intros (Ha & Hb & Hc & Hd & _).
  apply float_eqb_zero in Ha as [sa Ha], Hb as [sb Hb],
    Hc as [sc Hc], Hd as [sd Hd].
  change (@Hamilton_Quad binary64 quat) with (@quat_Quad binary64).
  unfold quat_Quad, c_quad. cbn [real imag h0 h1].
  change (@f_mul binary64) with PrimFloat.mul.
  change (@f_add binary64) with PrimFloat.add.
  rewrite !FloatAxioms.add_spec, !FloatAxioms.mul_spec, Ha, Hb, Hc, Hd.
  destruct sa, sb, sc, sd; reflexivity.
Qed.

Lemma Cayley_Quad_of_zero (p q : Hamilton) :
  all_zero p q = true ->
  Prim2SF (Hamilton_Quad p + Hamilton_Quad q) = S754_zero false.
Proof.
  unfold all_zero, coords8. rewrite forallb_app, andb_true_iff.
  intros [Hp Hq].
  rewrite FloatAxioms.add_spec, (quat_Quad_zero p Hp), (quat_Quad_zero q Hq).
  reflexivity.
Qed.

Lemma Cayley_Inv_underflow (p q : Hamilton) (n : float) :
  Cayley_Equals (cayley p q) Cayley_zero = Ok false ->
  Cayley_Quad (cayley p q) = Ok n ->
  (n =? 0) = true ->
  (exists z0 z1 : Hamilton,
      Cayley_Inv (cayley p q) = Ok (cayley z0 z1)
      /\ Forall (fun c => nonfinite c = true) (coords8 z0 z1))
  /\ (forall r s : Hamilton,
        exists w0 w1 : Hamilton,
          Cayley_Quo (cayley r s) (cayley p q) = Ok (cayley w0 w1)
          /\ Forall (fun c => nonfinite c = true) (coords8 w0 w1)).
Proof.
  intros Hnz Hq Hn.
  unfold Cayley_zero in Hnz. rewrite Cayley_Equals_value in Hnz.
  fold (is_zero_literal p q) in Hnz.
  rewrite Cayley_Quad_value in Hq.
  assert (Hz : is_zero_literal p q = false) by congruence.
  assert (Hq' : f_add (Hamilton_Quad p) (Hamilton_Quad q) = n) by congruence.
  destruct (float_inverse_of_zero n Hn) as [s Hs].
  split.
  - exists (Hamilton_Dil (Hamilton_Conj p) (1 / n)),
           (Hamilton_Dil (Hamilton_Neg q) (1 / n)).
    split.
    + rewrite Cayley_Inv_value, Hz. cbv zeta. rewrite Hq'. reflexivity.
    + apply Forall_app. split; now apply quat_Dil_nonfinite with s.
  - intros r s0.
    rewrite Cayley_Quo_value, Hz, Hq'.
    rewrite (@Cayley_Mul_value binary64 quat (fun y => eq_refl)).
    cbn [mbind result_bind]. rewrite Cayley_Dil_value.
    eexists _, _. split; [reflexivity|].
    apply Forall_app. split; now apply quat_Dil_nonfinite with s.
Qed.

Lemma Cayley_Inv_overflow (p q : Hamilton) (n : float) :
  existsb nonfinite (coords8 p q) = false ->
  Cayley_Quad (cayley p q) = Ok n ->
  (n =? infinity) = true ->
  exists z0 z1 : Hamilton,
    Cayley_Inv (cayley p q) = Ok (cayley z0 z1)
    /\ all_zero z0 z1 = true
    /\ Cayley_Inv (cayley z0 z1) = Panic (PanicMsg "inverse of zero").
Proof.
  intros Hfin Hq Hn.
  rewrite Cayley_Quad_value in Hq.
  assert (Hq' : f_add (Hamilton_Quad p) (Hamilton_Quad q) = n) by congruence.
  assert (Hz : is_zero_literal p q = false).
  { rewrite is_zero_literal_all_zero. apply not_true_is_false. intros Ha.
    apply Cayley_Quad_of_zero in Ha.
    change (Hamilton_Quad p + Hamilton_Quad q)
      with (f_add (Hamilton_Quad p) (Hamilton_Quad q)) in Ha.
    rewrite Hq', (float_eqb_infinity n Hn) in Ha. discriminate. }
  pose proof (float_inverse_of_infinity n Hn) as Hs.
  pose proof (Inv_coords_zero p q (1 / n) false (coords8_finite p q Hfin) Hs)
    as Hall.
  exists (Hamilton_Dil (Hamilton_Conj p) (1 / n)),
         (Hamilton_Dil (Hamilton_Neg q) (1 / n)).
  split; [|split].
  - rewrite Cayley_Inv_value, Hz. cbv zeta. rewrite Hq'. reflexivity.
  - exact Hall.
  - rewrite Cayley_Inv_value, is_zero_literal_all_zero, Hall. reflexivity.
Qed.

(** X12: Cayley.Inv and Cayley.Quo on binary64 when the quadrance of the
    operand leaves the range of float64.  The value 2^-600 is not the
    zero value and its quadrance underflows to 0; for every value that
    is not the zero value and whose quadrance compares equal to 0, Inv
    does not panic and returns a value whose eight coordinates are each
    infinite or NaN, and so does Quo with that value as denominator, for
    every numerator.  The value 2^600 has finite coordinates and its
    quadrance overflows to +Inf; for every value with finite coordinates
    whose quadrance is +Inf, Inv returns a value whose eight coordinates
    all compare equal to 0, so Inv of that result panics with
    the message inverse of zero. *)
Theorem Cayley_Inv_Quo_degenerate :
  (exists x : Cayley,
      Cayley_Equals x Cayley_zero = Ok false
      /\ @Cayley_Quad binary64 _ x = Ok 0)
  /\ (forall (p q : Hamilton) (n : float),
        Cayley_Equals (cayley p q) Cayley_zero = Ok false ->
        Cayley_Quad (cayley p q) = Ok n ->
        (n =? 0) = true ->
        (exists z0 z1 : Hamilton,
            Cayley_Inv (cayley p q) = Ok (cayley z0 z1)
            /\ Forall (fun c => nonfinite c = true) (coords8 z0 z1))
        /\ (forall r s : Hamilton,
              exists w0 w1 : Hamilton,
                Cayley_Quo (cayley r s) (cayley p q) = Ok (cayley w0 w1)
                /\ Forall (fun c => nonfinite c = true) (coords8 w0 w1)))
  /\ (exists p q : Hamilton,
        existsb nonfinite (coords8 p q) = false
        /\ Cayley_Quad (cayley p q) = Ok infinity)
  /\ (forall (p q : Hamilton) (n : float),
        existsb nonfinite (coords8 p q) = false ->
        Cayley_Quad (cayley p q) = Ok n ->
        (n =? infinity) = true ->
        exists z0 z1 : Hamilton,
          Cayley_Inv (cayley p q) = Ok (cayley z0 z1)
          /\ all_zero z0 z1 = true
          /\ Cayley_Inv (cayley z0 z1) = Panic (PanicMsg "inverse of zero")).
Proof.
  split; [|split; [|split]].
  - exists (@NewCayley binary64 _ 0x1p-600 0 0 0 0 0 0 0).
    split; vm_compute; reflexivity.
  - apply Cayley_Inv_underflow.
  - exists (@quat_New binary64 0x1p+600 0 0 0), (@quat_New binary64 0 0 0 0).
    split; vm_compute; reflexivity.
  - apply Cayley_Inv_overflow.
Qed.

Lemma Cayley_Inv_Quo_degenerate_witness :
  Cayley_Inv (@NewCayley binary64 _ 0x1p-600 0 0 0 0 0 0 0)
  = Ok (@NewCayley binary64 _ infinity nan nan nan nan nan nan nan)
  /\ (i ← Cayley_Inv (@NewCayley binary64 _ 0x1p+600 0 0 0 0 0 0 0);
      Cayley_Inv i) = Panic (PanicMsg "inverse of zero")
  /\ (exists z0 z1 : Hamilton,
        Cayley_Inv (@NewCayley binary64 _ 0x1p-600 0 0 0 0 0 0 0)
        = Ok (cayley z0 z1)
        /\ Forall (fun c => nonfinite c = true) (coords8 z0 z1))
  /\ (exists z0 z1 : Hamilton,
        Cayley_Inv (@NewCayley binary64 _ 0x1p+600 0 0 0 0 0 0 0)
        = Ok (cayley z0 z1)
        /\ all_zero z0 z1 = true
        /\ Cayley_Inv (cayley z0 z1) = Panic (PanicMsg "inverse of zero")).
Proof.
  split; [vm_compute; reflexivity|].
  split; [vm_compute; reflexivity|].
  pose proof Cayley_Inv_Quo_degenerate as (_ & Hu & _ & Ho).
  split.
  - refine (proj1 (Hu (@quat_New binary64 0x1p-600 0 0 0)
                      (@quat_New binary64 0 0 0 0) 0 _ _ _));
      vm_compute; reflexivity.
  - refine (Ho (@quat_New binary64 0x1p+600 0 0 0)
               (@quat_New binary64 0 0 0 0) infinity _ _ _);
      vm_compute; reflexivity.
Defined.
End Binary64Scaling.

(** ** octo.go *)

Section Tolerance.
Local Open Scope float_scope.

Lemma Prim2SF_delta : Prim2SF delta = S754_finite false 6044629098073146 (-79).
Proof. reflexivity. Qed.

Lemma not_above_delta (x : float) :
  Prim2SF x = S754_nan \/ (exists s, Prim2SF x = S754_zero s) ->
  (delta <? x) = false.
Proof.
  rewrite FloatAxioms.ltb_spec, Prim2SF_delta.
  intros [-> | [s ->]]; reflexivity.
Qed.

Lemma float_sub_of_eq (a b : float) :
  (a =? b) = true ->
  Prim2SF (a - b) = S754_nan \/ exists s, Prim2SF (a - b) = S754_zero s.
Proof.
  rewrite FloatAxioms.eqb_spec, FloatAxioms.sub_spec.
  destruct (Prim2SF a) as [sa|sa| |sa ma ea], (Prim2SF b) as [sb|sb| |sb mb eb];
    try (destruct sa; discriminate); try (destruct sb; discriminate);
    try discriminate.
  - intros _. right. destruct sa, sb; simpl; eauto.
  - destruct sa, sb; try discriminate; intros _; now left.
  - unfold SFeqb, SFcompare.
    destruct sa, sb; try discriminate;
      destruct (ea ?= eb)%Z eqn:He; try discriminate;
      destruct (Pos.compare_cont Eq ma mb) eqn:Hm; try discriminate;
      intros _; apply Z.compare_eq in He; apply Pos.compare_eq in Hm; subst;
      right; exists false; unfold SF64sub, SFsub;
      rewrite Z.sub_diag; reflexivity.
Qed.

Lemma float_sub_nan (b : float) :
  Prim2SF (nan - b) = S754_nan /\ Prim2SF (b - nan) = S754_nan.
Proof.
  rewrite !FloatAxioms.sub_spec.
  change (Prim2SF nan) with S754_nan.
  split; [reflexivity | now destruct (Prim2SF b)].
Qed.

(** X19: notEquals does not depend on the order of its arguments; it is
    false on any two floats that compare equal (two zeros of either
    sign, two infinities of the same sign), and false as soon as one
    argument is NaN, so a NaN is never told apart from anything.  A
    difference of exactly delta is within the tolerance. *)
Theorem notEquals_tolerance (a b : float) :
  notEquals a b = notEquals b a
  /\ ((a =? b) = true -> notEquals a b = false)
  /\ notEquals nan b = false
  /\ notEquals a nan = false
  /\ notEquals delta 0 = false
  /\ notEquals 0 1 = true.
Proof.
  repeat match goal with |- _ /\ _ => split end.
  - unfold notEquals. apply orb_comm.
  - intros H. unfold notEquals.
    rewrite (not_above_delta (a - b)) by now apply float_sub_of_eq.
    rewrite (not_above_delta (b - a)); [reflexivity|].
    apply float_sub_of_eq. now rewrite float_eqb_sym.
  - unfold notEquals. destruct (float_sub_nan b) as [H1 H2].
    rewrite !not_above_delta; auto.
  - unfold notEquals. destruct (float_sub_nan a) as [H1 H2].
    rewrite !not_above_delta; auto.
  - vm_compute. reflexivity.
  - vm_compute. reflexivity.
Qed.
End Tolerance.
